(** * vite.js: account blocks, the client's raw send and the account pipeline

    A shallow embedding of
      - src/transaction/accountBlock.ts   (class AccountBlockClass),
      - the client class                  (Client.sendRawTx),
      - the account class                 (activate / autoReceiveTx loops, sendPowTx),
    followed by the properties established about them.

    JavaScript objects mutated through [this] are threaded explicitly: a
    method takes the receiver and returns the updated receiver next to its
    completion.  Calls that leave the process (RPC requests, the ledger) are
    recorded in a trace, so that "called zero times" and "before any external
    call" are statements about lists. *)

From Stdlib Require Import String Ascii List Bool Arith NArith ZArith Lia.
From Stdlib Require Import Decimal DecimalString DecimalN.
From Stdlib Require Hexadecimal HexadecimalString HexadecimalN.
Import ListNotations.
Open Scope string_scope.

Set Implicit Arguments.

(* ================================================================== *)
(** ** JavaScript values used by the sources *)
(* ================================================================== *)

(** An optional property: [None] is [undefined]/[null], [Some s] the string. *)
Definition JsString := option string.

(** Truthiness of an optional string: [undefined], [null] and [''] are
    falsy, every other string (also ['0']) is truthy. *)
Definition truthy (v : JsString) : bool :=
  match v with
  | None => false
  | Some s => negb (s =? "")
  end.

(** [a !== b] for a property against a string. *)
Definition strict_neq (a : JsString) (b : string) : bool :=
  match a with
  | None => true
  | Some s => negb (s =? b)
  end.

(** [v ? v : d] for an optional string [v]. *)
Definition or_else (v : JsString) (d : string) : string :=
  match v with
  | Some s => if truthy v then s else d
  | None => d
  end.

(** Error object built by the checking helpers: [{ code, message }]. *)
Record ErrObj := { code : string; message : string }.

(** What a [throw] (or a rejected promise) carries. *)
Inductive Thrown :=
| ThrowObj (e : ErrObj)          (* an error object of the checking helpers *)
| ThrowFalsy                     (* [throw err] where [err] is null/undefined *)
| ThrowError (msg : string)      (* [new Error(msg)] *)
| ThrowRangeError.               (* maximum call stack size exceeded *)

Inductive completion (A : Type) :=
| Return (a : A)
| Throw (t : Thrown).
Arguments Throw {A} t.

Definition Buffer := list Byte.byte.

(** [Buffer | Hex]: the two shapes a key argument may have. *)
Inductive Key :=
| KBuffer (b : Buffer)
| KHex (h : string).

(* ================================================================== *)
(** ** bn.js on decimal strings *)
(* ================================================================== *)

Module BigNumber.

(** [new BigNumber(s)] for a base-10 string of decimal digits, the form
    of a [Uint64] height.  [None] marks a text with a character that is
    not a digit: what bn.js makes of a sign, a blank or a letter is not
    described here, and [None] is not an error of the code. *)
Definition ofString (s : string) : option N :=
  option_map N.of_uint (NilEmpty.uint_of_string s).

(** [bn.toString()]: decimal, no leading zero, ["0"] for zero. *)
Definition toString (n : N) : string :=
  NilEmpty.string_of_uint (N.to_uint n).

Definition add (a b : N) : N := (a + b)%N.

End BigNumber.

(* ================================================================== *)
(** ** src/transaction/accountBlock.ts *)
(* ================================================================== *)

Module AccountBlockBlock.
(** The plain object returned by the [accountBlock] getter. *)
Record t := mk {
  blockType : option nat;
  address : JsString;
  fee : JsString;
  data : JsString;
  sendBlockHash : JsString;
  toAddress : JsString;
  tokenId : JsString;
  amount : JsString;
  height : JsString;
  previousHash : JsString;
  difficulty : JsString;
  nonce : JsString;
  hash : string;
  publicKey : JsString;
  signature : JsString
}.
End AccountBlockBlock.

Module AccountBlock.

(** The constructor's argument object. *)
Record Args := mkArgs {
  a_blockType : option nat;
  a_address : JsString;
  a_fee : JsString;
  a_data : JsString;
  a_sendBlockHash : JsString;
  a_amount : JsString;
  a_toAddress : JsString;
  a_tokenId : JsString
}.

(** Instance fields of [AccountBlockClass]. *)
Record AccountBlockClass := mkClass {
  blockType : option nat;
  address : JsString;
  fee : JsString;
  data : JsString;
  sendBlockHash : JsString;
  toAddress : JsString;
  tokenId : JsString;
  amount : JsString;
  height : JsString;
  previousHash : JsString;
  difficulty : JsString;
  nonce : JsString;
  signature : JsString;
  publicKey : JsString
}.

(** The imports of accountBlock.ts whose sources are not part of the
    repository snapshot ([./utils], [~@vite/vitejs-utils],
    [~@vite/vitejs-hdwallet/address], blakejs, Node's Buffer).  They are
    parameters of the embedding. *)
Record Imports := mkImports {
  (* ./utils *)
  checkAccountBlock : Args -> option ErrObj;
  getAccountBlockHash : AccountBlockBlock.t -> string;
  (* checkParams, one entry per call site *)
  checkParams_previousHash : AccountBlockBlock.t -> option ErrObj;
  checkParams_nonce : JsString -> JsString -> option ErrObj;
  checkParams_key : string -> Key -> option ErrObj;
  (* ~@vite/vitejs-hdwallet/address *)
  getRealAddressFromAddress : JsString -> string;
  createAddressByPrivateKey : Buffer -> string * Buffer;
  getAddressFromPublicKey : Key -> string;
  (* ed25519, blake2b, Buffer *)
  ed25519_sign : string -> Buffer -> string;
  blake2bHex : Buffer -> string;
  Buffer_from_hex : string -> Buffer;
  Buffer_toString_base64 : Buffer -> string
}.

(** The [viteAPI] handed to the asynchronous methods.  A chain tip carries
    its height as a decimal string ([Uint64]) and its hash as hex. *)
Record Tip := mkTip { tip_height : JsString; tip_hash : JsString }.

Record PoWDifficultyResult := mkPoW {
  requiredQuota : JsString;
  pow_difficulty : JsString;
  qc : JsString;
  isCongestion : bool
}.

Record PoWDifficultyParams := mkPoWParams {
  p_address : JsString;
  p_previousHash : JsString;
  p_blockType : option nat;
  p_toAddress : JsString;
  p_data : JsString
}.

Record ViteAPI := mkAPI {
  ledger_getLatestAccountBlock : JsString -> completion (option Tip);
  ledger_getPoWDifficulty : PoWDifficultyParams -> completion PoWDifficultyResult;
  util_getPoWNonce : JsString -> string -> completion JsString
}.

(** One entry per [viteAPI.request] that was issued. *)
Inductive Request :=
| Req_getLatestAccountBlock (addr : JsString)
| Req_getPoWDifficulty (p : PoWDifficultyParams)
| Req_getPoWNonce (difficulty : JsString) (getNonceHash : string).

(** Modelled from the spec: [Default_Hash] of ./utils is not in the
    snapshot; the spec calls it the "sentinel all-zero value" of a 256-bit
    hash. *)
Definition Default_Hash : string :=
  "0000000000000000000000000000000000000000000000000000000000000000".

(** *** constructor (lines 30-53) *)
Definition constructor (u : Imports) (a : Args) : completion AccountBlockClass :=
  let err := checkAccountBlock u a in
  match err with
  | None => Throw ThrowFalsy                           (* if (!err) throw err *)
  | Some _ =>
      Return {| blockType := a_blockType a;
                address := a_address a;
                fee := a_fee a;
                data := a_data a;
                sendBlockHash := a_sendBlockHash a;
                amount := a_amount a;
                toAddress := a_toAddress a;
                tokenId := a_tokenId a;
                height := None;
                previousHash := None;
                difficulty := None;
                nonce := None;
                signature := None;
                publicKey := None |}
  end.

(** *** getters [accountBlock] (lines 55-73) and [hash] (lines 131-133)

    [accountBlock] reads [this.hash] while it builds its object, and
    [hash] reads [this.accountBlock] to build its argument: each getter
    enters the other before it can return.  [depth] is the number of
    call frames left; [None] is the engine's "maximum call stack size
    exceeded". *)
Fixpoint get_accountBlock (depth : nat) (u : Imports) (this : AccountBlockClass)
  : option AccountBlockBlock.t :=
  match depth with
  | O => None
  | S d =>
      match get_hash d u this with
      | None => None
      | Some h =>
          Some {| AccountBlockBlock.blockType := blockType this;
                  AccountBlockBlock.address := address this;
                  AccountBlockBlock.fee := fee this;
                  AccountBlockBlock.data := data this;
                  AccountBlockBlock.sendBlockHash := sendBlockHash this;
                  AccountBlockBlock.toAddress := toAddress this;
                  AccountBlockBlock.tokenId := tokenId this;
                  AccountBlockBlock.amount := amount this;
                  AccountBlockBlock.height := height this;
                  AccountBlockBlock.previousHash := previousHash this;
                  AccountBlockBlock.difficulty := difficulty this;
                  AccountBlockBlock.nonce := nonce this;
                  AccountBlockBlock.hash := h;
                  AccountBlockBlock.publicKey := publicKey this;
                  AccountBlockBlock.signature := signature this |}
      end
  end
with get_hash (depth : nat) (u : Imports) (this : AccountBlockClass)
  : option string :=
  match depth with
  | O => None
  | S d =>
      match get_accountBlock d u this with
      | None => None
      | Some blk => Some (getAccountBlockHash u blk)
      end
  end.

Definition realAddress (u : Imports) (this : AccountBlockClass) : string :=
  getRealAddressFromAddress u (address this).

(** *** getHeight (lines 135-142), after the awaited request returned
    [previousAccountBlock].  The result is [None] only where
    [BigNumber.ofString] is: for a tip whose height is not made of
    decimal digits, which lies outside what is described; the code has no
    failing path there. *)
Definition getHeight_of (previousAccountBlock : option Tip) : option (string * string) :=
  let height : string :=
    match previousAccountBlock with
    | Some t => or_else (tip_height t) ""
    | None => ""
    end in
  let previousHash : string :=
    match previousAccountBlock with
    | Some t => or_else (tip_hash t) Default_Hash
    | None => Default_Hash
    end in
  if truthy (Some height)
  then match BigNumber.ofString height with
       | Some n => Some (BigNumber.toString (BigNumber.add n 1), previousHash)
       | None => None
       end
  else Some ("1", previousHash).

(** [getHeight]: the request, then the computation above.  The inner
    [None] stands for a height string bn.js cannot read as base 10. *)
Definition getHeight (api : ViteAPI) (this : AccountBlockClass)
  : list Request * completion (option (string * string)) :=
  ([Req_getLatestAccountBlock (address this)],
   match ledger_getLatestAccountBlock api (address this) with
   | Throw t => Throw t
   | Return prev => Return (getHeight_of prev)
   end).

Definition setHeight (this : AccountBlockClass) (h : string) (p : string)
  : AccountBlockClass :=
  {| blockType := blockType this; address := address this; fee := fee this;
     data := data this; sendBlockHash := sendBlockHash this;
     toAddress := toAddress this; tokenId := tokenId this; amount := amount this;
     height := Some h; previousHash := Some p;
     difficulty := difficulty this; nonce := nonce this;
     signature := signature this; publicKey := publicKey this |}.

(** *** getDifficulty (lines 152-177) *)
Definition getDifficulty (depth : nat) (u : Imports) (api : ViteAPI)
  (this : AccountBlockClass) : list Request * completion PoWDifficultyResult :=
  match get_accountBlock depth u this with
  | None => ([], Throw ThrowRangeError)
  | Some blk =>
      match checkParams_previousHash u blk with
      | Some err => ([], Throw (ThrowObj err))
      | None =>
          let params := {| p_address := address this;
                           p_previousHash := previousHash this;
                           p_blockType := blockType this;
                           p_toAddress := toAddress this;
                           p_data := data this |} in
          ([Req_getPoWDifficulty params], ledger_getPoWDifficulty api params)
      end
  end.

Definition setDifficulty (this : AccountBlockClass) (d : JsString) : AccountBlockClass :=
  {| blockType := blockType this; address := address this; fee := fee this;
     data := data this; sendBlockHash := sendBlockHash this;
     toAddress := toAddress this; tokenId := tokenId this; amount := amount this;
     height := height this; previousHash := previousHash this;
     difficulty := d; nonce := nonce this;
     signature := signature this; publicKey := publicKey this |}.

(** String concatenation with a possibly undefined right operand. *)
Definition concat_js (a : string) (b : JsString) : string :=
  a ++ match b with Some s => s | None => "undefined" end.

(** *** getNonce (lines 183-197) *)
Definition getNonce (u : Imports) (api : ViteAPI) (this : AccountBlockClass)
  : list Request * completion JsString :=
  match checkParams_nonce u (difficulty this) (previousHash this) with
  | Some err => ([], Throw (ThrowObj err))
  | None =>
      let getNonceHashBuffer :=
        Buffer_from_hex u (concat_js (realAddress u this) (previousHash this)) in
      let getNonceHash := blake2bHex u getNonceHashBuffer in
      ([Req_getPoWNonce (difficulty this) getNonceHash],
       util_getPoWNonce api (difficulty this) getNonceHash)
  end.

Definition setNonce (this : AccountBlockClass) (n : JsString) : AccountBlockClass :=
  {| blockType := blockType this; address := address this; fee := fee this;
     data := data this; sendBlockHash := sendBlockHash this;
     toAddress := toAddress this; tokenId := tokenId this; amount := amount this;
     height := height this; previousHash := previousHash this;
     difficulty := difficulty this; nonce := n;
     signature := signature this; publicKey := publicKey this |}.

(** *** autoSetNonce (lines 203-214)

    [autoSetNonce_resume] is the part of the body that runs once
    [await this.getDifficulty(viteAPI)] has produced [result]. *)
Definition autoSetNonce_resume (u : Imports) (api : ViteAPI)
  (this : AccountBlockClass) (result : PoWDifficultyResult)
  : list Request * AccountBlockClass * completion (JsString * JsString) :=
  let this1 := setDifficulty this (pow_difficulty result) in
  if truthy (difficulty this1)
  then match getNonce u api this1 with
       | (reqs, Throw t) => (reqs, this1, Throw t)
       | (reqs, Return n) =>
           let this2 := setNonce this1 n in
           (reqs, this2, Return (difficulty this2, nonce this2))
       end
  else let this2 := setNonce this1 None in
       ([], this2, Return (difficulty this2, nonce this2)).

Definition autoSetNonce (depth : nat) (u : Imports) (api : ViteAPI)
  (this : AccountBlockClass)
  : list Request * AccountBlockClass * completion (JsString * JsString) :=
  match getDifficulty depth u api this with
  | (reqs, Throw t) => (reqs, this, Throw t)
  | (reqs, Return result) =>
      let '(reqs', this', c) := autoSetNonce_resume u api this result in
      ((reqs ++ reqs')%list, this', c)
  end.

(** *** setPublicKey (lines 216-234) *)
Definition toBuffer (u : Imports) (k : Key) : Buffer :=
  match k with
  | KBuffer b => b
  | KHex h => Buffer_from_hex u h
  end.

Definition setPublicKey (u : Imports) (this : AccountBlockClass) (pub : Key)
  : AccountBlockClass * completion unit :=
  match checkParams_key u "publicKey" pub with
  | Some err => (this, Throw (ThrowObj err))
  | None =>
      let addr := getAddressFromPublicKey u pub in
      if strict_neq (address this) addr
      then (this, Throw (ThrowError "PublicKey is wrong."))
      else
        let _publicKey := toBuffer u pub in
        ({| blockType := blockType this; address := address this; fee := fee this;
            data := data this; sendBlockHash := sendBlockHash this;
            toAddress := toAddress this; tokenId := tokenId this;
            amount := amount this; height := height this;
            previousHash := previousHash this; difficulty := difficulty this;
            nonce := nonce this; signature := signature this;
            publicKey := Some (Buffer_toString_base64 u _publicKey) |},
         Return tt)
  end.

Definition setSignature (this : AccountBlockClass) (sig : string) : AccountBlockClass :=
  {| blockType := blockType this; address := address this; fee := fee this;
     data := data this; sendBlockHash := sendBlockHash this;
     toAddress := toAddress this; tokenId := tokenId this; amount := amount this;
     height := height this; previousHash := previousHash this;
     difficulty := difficulty this; nonce := nonce this;
     signature := Some sig; publicKey := publicKey this |}.

(** *** sign (lines 240-263) *)
Definition sign (depth : nat) (u : Imports) (this : AccountBlockClass) (privateKey : Key)
  : AccountBlockClass * completion AccountBlockBlock.t :=
  match checkParams_key u "privateKey" privateKey with
  | Some err => (this, Throw (ThrowObj err))
  | None =>
      let _privateKey := toBuffer u privateKey in
      let '(addr, pub) := createAddressByPrivateKey u _privateKey in
      if strict_neq (address this) addr
      then (this, Throw (ThrowError "PrivateKey is wrong."))
      else
        match setPublicKey u this (KBuffer pub) with
        | (this1, Throw t) => (this1, Throw t)
        | (this1, Return _) =>
            match get_hash depth u this1 with
            | None => (this1, Throw ThrowRangeError)
            | Some h =>
                let this2 := setSignature this1 (ed25519_sign u h _privateKey) in
                match get_accountBlock depth u this2 with
                | None => (this2, Throw ThrowRangeError)
                | Some blk => (this2, Return blk)
                end
            end
        end
  end.

End AccountBlock.

(* ================================================================== *)
(** ** ./utils: canonical encoding and content hash *)
(* ================================================================== *)

Module Utils.

(** The byte-level primitives and the fixed-width encoders, which the spec
    names without defining their output; they are parameters. *)
Record Codec := mkCodec {
  digest : string -> string;                 (* 256-bit digest of the hex source *)
  getBlockTypeHex : option nat -> string;
  getRealAddressFromAddress : JsString -> string;
  getPreviousHashHex : JsString -> string;
  getToAddressHex : JsString -> string;
  getTokenIdHex : JsString -> string;
  getDataHex : JsString -> string;
  getFeeHex : JsString -> string;
  getSendBlockHashHex : JsString -> string;
  getHeightHex : JsString -> string;
  getNonceHex : JsString -> string
}.

(** Modelled from the spec: "minimal big-endian hex" of a positive
    integer, which ./utils (not in the snapshot) computes: the hex digits of
    [n], padded on the left to whole bytes. *)
Definition toHexBytes (n : N) : string :=
  let digits := HexadecimalString.NilEmpty.string_of_uint (N.to_hex_uint n) in
  if Nat.even (String.length digits) then digits else "0" ++ digits.

(** Modelled from the spec: the number an amount property denotes for
    ./utils (not in the snapshot); absent, empty and unreadable amounts
    count as zero. *)
Definition amountValue (amount : JsString) : N :=
  match amount with
  | None => 0%N
  | Some s => match BigNumber.ofString s with
              | Some n => n
              | None => 0%N
              end
  end.

(** Modelled from the spec: [getAmountHex] of ./utils is not in the
    snapshot.  "integers (height, amount, fee) serialize as minimal
    big-endian hex (empty/zero encodes to an empty byte string, not a
    literal zero byte ...)". *)
Definition getAmountHex (amount : JsString) : string :=
  match amountValue amount with
  | 0%N => ""
  | n => toHexBytes n
  end.

(** Modelled from the spec: the concatenation that [getAccountBlockHash]
    of ./utils (not in the snapshot) hashes, in the spec's fixed order:
    blockType, realAddress, previousHash, toAddress, amount, tokenId, data,
    fee, sendBlockHash, height, nonce. *)
Definition source (c : Codec) (b : AccountBlockBlock.t) : string :=
  getBlockTypeHex c (AccountBlockBlock.blockType b)
  ++ getRealAddressFromAddress c (AccountBlockBlock.address b)
  ++ getPreviousHashHex c (AccountBlockBlock.previousHash b)
  ++ getToAddressHex c (AccountBlockBlock.toAddress b)
  ++ getAmountHex (AccountBlockBlock.amount b)
  ++ getTokenIdHex c (AccountBlockBlock.tokenId b)
  ++ getDataHex c (AccountBlockBlock.data b)
  ++ getFeeHex c (AccountBlockBlock.fee b)
  ++ getSendBlockHashHex c (AccountBlockBlock.sendBlockHash b)
  ++ getHeightHex c (AccountBlockBlock.height b)
  ++ getNonceHex c (AccountBlockBlock.nonce b).

(** Modelled from the spec: [getAccountBlockHash] of ./utils is not in the
    snapshot.  "The content hash is a 256-bit keyed digest over the
    concatenation of the canonically encoded fields in one FIXED order". *)
Definition getAccountBlockHash (c : Codec) (b : AccountBlockBlock.t) : string :=
  digest c (source c b).








End Utils.

(* ================================================================== *)
(** ** The client class: sendRawTx *)
(* ================================================================== *)

Module Client.

Section SendRawTx.

(** The account block handled by the client is opaque to [sendRawTx]. *)
Variable Block : Type.

(** A rejected promise: the error object and the [accountBlock] property
    the client may have put on it. *)
Record Rejection := mkRejection {
  error : ErrObj;
  accountBlock : option Block
}.

Inductive Settled :=
| Resolved
| Rejected (r : Rejection).

(** What [sendRawTx] calls: its parameter check (with
    [validReqAccountBlock]), [signAccountBlock] of the accountblock package
    and the ledger's [tx.sendRawTx]; an error is [inl]. *)
Record Deps := mkDeps {
  checkParams : Block -> Key -> option ErrObj;
  signAccountBlock : Block -> Key -> ErrObj + Block;
  tx_sendRawTx : Block -> ErrObj + unit
}.

(** sendRawTx (lines 126-144): the blocks handed to [this.tx.sendRawTx],
    in order, and how the returned promise settles. *)
Definition sendRawTx (d : Deps) (accountBlock : Block) (privateKey : Key)
  : list Block * Settled :=
  match checkParams d accountBlock privateKey with
  | Some err => ([], Rejected {| error := err; accountBlock := None |})
  | None =>
      match signAccountBlock d accountBlock privateKey with
      | inl err => ([], Rejected {| error := err; accountBlock := None |})
      | inr _accountBlock =>
          ([_accountBlock],
           match tx_sendRawTx d _accountBlock with
           | inr _ => Resolved
           | inl err =>
               Rejected {| error := err; accountBlock := Some _accountBlock |}
           end)
      end
  end.

End SendRawTx.

End Client.

(* ================================================================== *)
(** ** The account class: sendPowTx, the polling loops, auto receive *)
(* ================================================================== *)

Module Account.

(** The account block as the account class handles it. *)
Record Block := mkBlock {
  accountAddress : JsString;
  prevHash : JsString;
  blockType : option nat;
  toAddress : JsString;
  data : JsString;
  difficulty : JsString;
  nonce : JsString;
  publicKey : JsString;
  signature : JsString
}.

Record CheckPowResult := mkCheckPowResult {
  cpr_requiredQuota : JsString;
  cpr_difficulty : JsString;
  cpr_qc : JsString;
  cpr_isCongestion : bool
}.

Record CalcArgs := mkCalcArgs {
  selfAddr : JsString;
  c_prevHash : JsString;
  c_blockType : option nat;
  toAddr : JsString;
  c_data : JsString;
  c_usePledgeQuota : bool
}.

(** Instance fields of [AccountClass]. *)
Record AccountClass := mkAccount {
  address : string;
  privateKey : string;
  autoPow : bool;
  usePledgeQuota : bool;
  _lock : bool;
  _autoReceive : bool
}.

(** What the pipeline reaches through [this.getBlock] and [this._client],
    and the imported [signAccountBlock]. *)
Record Deps := mkDeps {
  getBlock : string -> list string -> completion Block;
  calcPoWDifficulty : CalcArgs -> completion CheckPowResult;
  builtinTxBlock_pow : Block -> JsString -> completion Block;
  import_signAccountBlock : Block -> string -> completion Block;
  client_sendRawTx : Block -> completion unit
}.

(** The hooks covered: a hook either invokes its continuation once, with
    or without an argument, and returns what the continuation returns, or
    returns without invoking it.  The code hands a hook the block object
    and the continuation themselves (lines 393, 414, 439, 461); a hook
    that invokes the continuation more than once, drops its result,
    assigns to the block or throws is not described by this type, and
    every statement about the pipeline is a statement about the hooks of
    this type only. *)
Inductive HookAction :=
| CallNext (arg : option bool)
| NoCall.

Record Hooks := mkHooks {
  beforeCheckPow : option (Block -> HookAction);
  beforePow : option (Block -> option CheckPowResult -> HookAction);
  beforeSignTx : option (Block -> option CheckPowResult -> HookAction);
  beforeSendTx : option (Block -> option CheckPowResult -> HookAction)
}.

Inductive Event :=
| Ev_getBlock (methodName : string) (params : list string)
| Ev_hook (stage : string) (a : HookAction)
| Ev_calcPoWDifficulty (args : CalcArgs)
| Ev_pow (b : Block) (d : JsString)
| Ev_sign (b : Block)
| Ev_send (b : Block).

(** How the promise returned by [sendPowTx] ends. *)
Inductive Outcome :=
| Result (lifeCycle : string) (checkPowResult : option CheckPowResult) (accountBlock : Block)
| Failed (t : Thrown)
| HookKept.     (* a hook returned without invoking its continuation *)

Definition Run := (list Event * Outcome)%type.

Definition after (evs : list Event) (r : Run) : Run :=
  ((evs ++ fst r)%list, snd r).

(** A default parameter: [undefined] takes the default. *)
Definition default_arg (d : bool) (arg : option bool) : bool :=
  match arg with
  | Some b => b
  | None => d
  end.

(** signAccountBlock (lines 230-239): the result of [checkParams] is
    dropped, the address is overwritten, the import signs. *)
Definition signAccountBlock (d : Deps) (this : AccountClass) (b : Block)
  : completion Block :=
  let b' := {| accountAddress := Some (address this);
               prevHash := prevHash b; blockType := blockType b;
               toAddress := toAddress b; data := data b;
               difficulty := difficulty b; nonce := nonce b;
               publicKey := publicKey b; signature := signature b |} in
  import_signAccountBlock d b' (privateKey this).

(** sendAccountBlock (lines 334-336) *)
Definition sendAccountBlock (d : Deps) (b : Block) : completion unit :=
  client_sendRawTx d b.

(** *** sendPowTx (lines 352-463)

    The closure variables [lifeCycle], [checkPowResult] and [accountBlock]
    are passed to each step. *)

(** Step 7 *)
Definition sendTxFunc (d : Deps) (lifeCycle : string)
  (checkPowResult : option CheckPowResult) (accountBlock : Block)
  (isReject : bool) : Run :=
  if isReject
  then ([], Result lifeCycle checkPowResult accountBlock)
  else ([Ev_send accountBlock],
        match sendAccountBlock d accountBlock with
        | Throw t => Failed t
        | Return _ => Result "finish" checkPowResult accountBlock
        end).

(** Step 6 *)
Definition _beforeSendTx (d : Deps) (h : Hooks) (lifeCycle : string)
  (checkPowResult : option CheckPowResult) (accountBlock : Block) : Run :=
  match beforeSendTx h with
  | None => sendTxFunc d lifeCycle checkPowResult accountBlock false
  | Some hook =>
      let a := hook accountBlock checkPowResult in
      after [Ev_hook "beforeSendTx" a]
        match a with
        | NoCall => ([], HookKept)
        | CallNext arg =>
            sendTxFunc d lifeCycle checkPowResult accountBlock (default_arg false arg)
        end
  end.

(** Step 5 *)
Definition signTx (d : Deps) (this : AccountClass) (h : Hooks) (lifeCycle : string)
  (checkPowResult : option CheckPowResult) (accountBlock : Block)
  (isReject : bool) : Run :=
  if isReject
  then ([], Result lifeCycle checkPowResult accountBlock)
  else after [Ev_sign accountBlock]
         match signAccountBlock d this accountBlock with
         | Throw t => ([], Failed t)
         | Return signed => _beforeSendTx d h "signDone" checkPowResult signed
         end.

(** Step 4 *)
Definition _beforeSignTx (d : Deps) (this : AccountClass) (h : Hooks)
  (lifeCycle : string) (checkPowResult : option CheckPowResult)
  (accountBlock : Block) : Run :=
  match beforeSignTx h with
  | None => signTx d this h lifeCycle checkPowResult accountBlock false
  | Some hook =>
      let a := hook accountBlock checkPowResult in
      after [Ev_hook "beforeSignTx" a]
        match a with
        | NoCall => ([], HookKept)
        | CallNext arg =>
            signTx d this h lifeCycle checkPowResult accountBlock (default_arg false arg)
        end
  end.

(** Step 3 *)
Definition powFunc (d : Deps) (this : AccountClass) (h : Hooks) (lifeCycle : string)
  (checkPowResult : CheckPowResult) (accountBlock : Block) (isReject : bool) : Run :=
  if isReject
  then ([], Result lifeCycle (Some checkPowResult) accountBlock)
  else after [Ev_pow accountBlock (cpr_difficulty checkPowResult)]
         match builtinTxBlock_pow d accountBlock (cpr_difficulty checkPowResult) with
         | Throw t => ([], Failed t)
         | Return mined => _beforeSignTx d this h "powDone" (Some checkPowResult) mined
         end.

(** Step 2 *)
Definition _beforePow (d : Deps) (this : AccountClass) (h : Hooks) (lifeCycle : string)
  (checkPowResult : CheckPowResult) (accountBlock : Block) : Run :=
  match beforePow h with
  | None => powFunc d this h lifeCycle checkPowResult accountBlock false
  | Some hook =>
      let a := hook accountBlock (Some checkPowResult) in
      after [Ev_hook "beforePow" a]
        match a with
        | NoCall => ([], HookKept)
        | CallNext arg =>
            powFunc d this h lifeCycle checkPowResult accountBlock (default_arg false arg)
        end
  end.

Definition calcArgs (accountBlock : Block) (usePledgeQuota : bool) : CalcArgs :=
  {| selfAddr := accountAddress accountBlock;
     c_prevHash := prevHash accountBlock;
     c_blockType := blockType accountBlock;
     toAddr := toAddress accountBlock;
     c_data := data accountBlock;
     c_usePledgeQuota := usePledgeQuota |}.

(** Step 1 *)
Definition checkFunc (d : Deps) (this : AccountClass) (h : Hooks)
  (accountBlock : Block) (usePledgeQuota : bool) : Run :=
  after [Ev_calcPoWDifficulty (calcArgs accountBlock usePledgeQuota)]
    match calcPoWDifficulty d (calcArgs accountBlock usePledgeQuota) with
    | Throw t => ([], Failed t)
    | Return checkPowResult =>
        if negb (truthy (cpr_difficulty checkPowResult))
        then _beforeSendTx d h "checkPowDone" (Some checkPowResult) accountBlock
        else _beforePow d this h "checkPowDone" checkPowResult accountBlock
    end.

Definition sendPowTx (d : Deps) (this : AccountClass) (h : Hooks)
  (methodName : string) (params : list string) : Run :=
  after [Ev_getBlock methodName params]
    match getBlock d methodName params with
    | Throw t => ([], Failed t)
    | Return accountBlock =>
        match beforeCheckPow h with
        | None => checkFunc d this h accountBlock true
        | Some hook =>
            let a := hook accountBlock in
            after [Ev_hook "beforeCheckPow" a]
              match a with
              | NoCall => ([], HookKept)
              | CallNext arg =>
                  checkFunc d this h accountBlock (default_arg true arg)
              end
        end
    end.

(** Counting the calls of one kind in a trace. *)
Definition is_pow (e : Event) : bool :=
  match e with Ev_pow _ _ => true | _ => false end.
Definition is_sign (e : Event) : bool :=
  match e with Ev_sign _ => true | _ => false end.
Definition is_send (e : Event) : bool :=
  match e with Ev_send _ => true | _ => false end.
Definition calls (p : Event -> bool) (tr : list Event) : nat :=
  List.length (filter p tr).

(** *** activate / freeze / autoReceiveTx / stopAutoReceiveTx (lines 241-332)

    A loop is a chain of callbacks: it issues its request, and when the
    request settles it arms a timer whose callback runs the loop body
    again.  The scheduler state counts, for each kind of loop, the chains
    that wait for their request and those that wait for their timer. *)
Record Sched := mkSched {
  this : AccountClass;
  balanceRequests : nat;
  balanceTimers : nat;
  receiveRequests : nat;
  receiveTimers : nat
}.

Definition set_lock (v : bool) (a : AccountClass) : AccountClass :=
  {| address := address a; privateKey := privateKey a; autoPow := autoPow a;
     usePledgeQuota := usePledgeQuota a; _lock := v;
     _autoReceive := _autoReceive a |}.

Definition set_autoReceive (v : bool) (a : AccountClass) : AccountClass :=
  {| address := address a; privateKey := privateKey a; autoPow := autoPow a;
     usePledgeQuota := usePledgeQuota a; _lock := _lock a;
     _autoReceive := v |}.

(** The body of [loop] inside [activate] up to the request. *)
Definition balance_loop (s : Sched) : Sched :=
  if _lock (this s) then s
  else {| this := this s;
          balanceRequests := S (balanceRequests s);
          balanceTimers := balanceTimers s;
          receiveRequests := receiveRequests s;
          receiveTimers := receiveTimers s |}.

Definition activate (s : Sched) : Sched :=
  if negb (_lock (this s)) then s
  else balance_loop {| this := set_lock false (this s);
                       balanceRequests := balanceRequests s;
                       balanceTimers := balanceTimers s;
                       receiveRequests := receiveRequests s;
                       receiveTimers := receiveTimers s |}.

Definition freeze (s : Sched) : Sched :=
  {| this := set_lock true (this s);
     balanceRequests := balanceRequests s;
     balanceTimers := balanceTimers s;
     receiveRequests := receiveRequests s;
     receiveTimers := receiveTimers s |}.

(** The body of [loop] inside [autoReceiveTx] up to [_receive()]. *)
Definition receive_loop (s : Sched) : Sched :=
  if negb (_autoReceive (this s)) then s
  else {| this := this s;
          balanceRequests := balanceRequests s;
          balanceTimers := balanceTimers s;
          receiveRequests := S (receiveRequests s);
          receiveTimers := receiveTimers s |}.

Definition autoReceiveTx (s : Sched) : Sched :=
  if _autoReceive (this s) then s
  else receive_loop {| this := set_autoReceive true (this s);
                       balanceRequests := balanceRequests s;
                       balanceTimers := balanceTimers s;
                       receiveRequests := receiveRequests s;
                       receiveTimers := receiveTimers s |}.

Definition stopAutoReceiveTx (s : Sched) : Sched :=
  {| this := set_autoReceive false (this s);
     balanceRequests := balanceRequests s;
     balanceTimers := balanceTimers s;
     receiveRequests := receiveRequests s;
     receiveTimers := receiveTimers s |}.

(** [getBalance()] settled: [Some b] is fulfilment, [b] telling whether
    [balance.onroad.tokenBalanceInfoMap] is truthy; [None] is rejection.
    Either way [_t()] arms the timer. *)
Definition balance_settled (r : option bool) (s : Sched) : Sched :=
  match balanceRequests s with
  | O => s
  | S n =>
      let s1 := {| this := this s;
                   balanceRequests := n;
                   balanceTimers := S (balanceTimers s);
                   receiveRequests := receiveRequests s;
                   receiveTimers := receiveTimers s |} in
      match r with
      | Some true => autoReceiveTx s1
      | Some false => stopAutoReceiveTx s1
      | None => s1
      end
  end.

Definition balance_timeout (s : Sched) : Sched :=
  match balanceTimers s with
  | O => s
  | S n => balance_loop {| this := this s;
                           balanceRequests := balanceRequests s;
                           balanceTimers := n;
                           receiveRequests := receiveRequests s;
                           receiveTimers := receiveTimers s |}
  end.

(** [_receive()] settled, fulfilled or rejected: [_t()] arms the timer. *)
Definition receive_settled (s : Sched) : Sched :=
  match receiveRequests s with
  | O => s
  | S n => {| this := this s;
              balanceRequests := balanceRequests s;
              balanceTimers := balanceTimers s;
              receiveRequests := n;
              receiveTimers := S (receiveTimers s) |}
  end.

Definition receive_timeout (s : Sched) : Sched :=
  match receiveTimers s with
  | O => s
  | S n => receive_loop {| this := this s;
                           balanceRequests := balanceRequests s;
                           balanceTimers := balanceTimers s;
                           receiveRequests := receiveRequests s;
                           receiveTimers := n |}
  end.

(** What can happen to an account between two turns of the event loop. *)
Inductive LoopEvent :=
| Activate
| Freeze
| AutoReceiveTx
| StopAutoReceiveTx
| BalanceSettled (r : option bool)
| BalanceTimeout
| ReceiveSettled
| ReceiveTimeout.

Definition step (s : Sched) (e : LoopEvent) : Sched :=
  match e with
  | Activate => activate s
  | Freeze => freeze s
  | AutoReceiveTx => autoReceiveTx s
  | StopAutoReceiveTx => stopAutoReceiveTx s
  | BalanceSettled r => balance_settled r s
  | BalanceTimeout => balance_timeout s
  | ReceiveSettled => receive_settled s
  | ReceiveTimeout => receive_timeout s
  end.

Definition run (es : list LoopEvent) (s : Sched) : Sched :=
  fold_left step es s.

(** The state the constructor leaves (lines 208-209): both loops off. *)
Definition fresh (a : AccountClass) : Sched :=
  {| this := set_autoReceive false (set_lock true a);
     balanceRequests := 0; balanceTimers := 0;
     receiveRequests := 0; receiveTimers := 0 |}.

(** Loops of each kind that are alive: awaiting a request or a timer. *)
Definition balanceLoops (s : Sched) : nat := balanceRequests s + balanceTimers s.
Definition receiveLoops (s : Sched) : nat := receiveRequests s + receiveTimers s.

Definition is_freeze (e : LoopEvent) : bool :=
  match e with Freeze => true | _ => false end.

(** Events through which [_autoReceive] is set back to false. *)
Definition stops_receive (e : LoopEvent) : bool :=
  match e with
  | StopAutoReceiveTx | BalanceSettled (Some false) => true
  | _ => false
  end.

(** *** The receive tick: [_receive] (lines 292-305) and the sends it uses *)

Record OnroadBlock := mkOnroad { ob_hash : string; ob_fromAddress : string }.

(** Modelled from the spec: the remote ledger is not in the snapshot.  Its
    pending inbound blocks of the account form an "ordered sequence of
    pending blocks", oldest first. *)
Definition Ledger := list OnroadBlock.

(** Modelled from the spec: [listPendingInbound(address, index, pageCount)]
    returns the page [index] of [pageCount] pending blocks. *)
Definition getOnroadBlocks (l : Ledger) (index pageCount : nat) : list OnroadBlock :=
  firstn pageCount (skipn (index * pageCount) l).

(** Modelled from the spec: a block is pending while it is "not yet
    acknowledged by a matching response block"; an accepted response to
    [fromBlockHash] takes the first pending block with that hash out. *)
Fixpoint acknowledge (fromBlockHash : string) (l : Ledger) : Ledger :=
  match l with
  | [] => []
  | b :: rest =>
      if ob_hash b =? fromBlockHash then rest
      else b :: acknowledge fromBlockHash rest
  end.

(** The client call a response block ends in. *)
Inductive Submission :=
| SendTx (fromBlockHash : string) (privateKey : string)
| SendAutoPowTx (fromBlockHash : string) (privateKey : string) (usePledgeQuota : bool).

(** sendRawTx (lines 338-340); the block is named by the hash it answers. *)
Definition sendRawTx (a : AccountClass) (fromBlockHash : string) : Submission :=
  SendTx fromBlockHash (privateKey a).

(** sendAutoPowRawTx (lines 342-350) *)
Definition sendAutoPowRawTx (a : AccountClass) (fromBlockHash : string)
  (usePledgeQuota' : option bool) : Submission :=
  let _usePledgeQuota :=
    match usePledgeQuota' with
    | Some b => b
    | None => usePledgeQuota a
    end in
  SendAutoPowTx fromBlockHash (privateKey a) _usePledgeQuota.

(** _sendRawTx (lines 465-473) *)
Definition _sendRawTx (a : AccountClass) (fromBlockHash : string)
  (autoPow' usePledgeQuota' : option bool) : Submission :=
  let _autoPow :=
    match autoPow' with
    | Some b => b
    | None => autoPow a
    end in
  if negb _autoPow then sendRawTx a fromBlockHash
  else sendAutoPowRawTx a fromBlockHash usePledgeQuota'.

(** How the network behaves during one tick. *)
Record Net := mkNet {
  fetch_ok : bool;      (* getOnroadBlocks fulfilled *)
  build_ok : bool;      (* getBlock.receiveTx fulfilled *)
  accepted : bool       (* the ledger accepted the response block *)
}.

Inductive RecvEvent :=
| Ev_getOnroadBlocks (index pageCount : nat)
| Ev_submit (s : Submission).

(** _receive (lines 292-305), with [receiveTx] as [_setTxMethod] builds it
    (lines 487-490). *)
Definition _receive (a : AccountClass) (autoPow' usePledgeQuota' : option bool)
  (net : Net) (l : Ledger) : Ledger * list RecvEvent :=
  if negb (fetch_ok net) then (l, [Ev_getOnroadBlocks 0 1])
  else
    match getOnroadBlocks l 0 1 with
    | [] => (l, [Ev_getOnroadBlocks 0 1])
    | first :: _ =>
        let fromBlockHash := ob_hash first in
        if negb (build_ok net) then (l, [Ev_getOnroadBlocks 0 1])
        else
          let sub := _sendRawTx a fromBlockHash autoPow' usePledgeQuota' in
          (if accepted net then acknowledge fromBlockHash l else l,
           [Ev_getOnroadBlocks 0 1; Ev_submit sub])
    end.

(** Successive ticks of the receive loop; one list of events per tick. *)
Fixpoint ticks (a : AccountClass) (autoPow' usePledgeQuota' : option bool)
  (nets : list Net) (l : Ledger) : Ledger * list (list RecvEvent) :=
  match nets with
  | [] => (l, [])
  | net :: nets' =>
      let '(l1, evs) := _receive a autoPow' usePledgeQuota' net l in
      let '(l2, rest) := ticks a autoPow' usePledgeQuota' nets' l1 in
      (l2, evs :: rest)
  end.

Definition all_ok : Net := {| fetch_ok := true; build_ok := true; accepted := true |}.

(** *** Notions used to state the properties below *)

(** What [beforeCheckPow] passes to [checkFunc]; [None] when the hook keeps
    the continuation. *)
Definition checkPow_arg (h : Hooks) (b : Block) : option bool :=
  match beforeCheckPow h with
  | None => Some true
  | Some hook =>
      match hook b with
      | NoCall => None
      | CallNext arg => Some (default_arg true arg)
      end
  end.

(** What [beforeSendTx] passes to [sendTxFunc]. *)
Definition sendTx_arg (h : Hooks) (b : Block) (r : option CheckPowResult) : option bool :=
  match beforeSendTx h with
  | None => Some false
  | Some hook =>
      match hook b r with
      | NoCall => None
      | CallNext arg => Some (default_arg false arg)
      end
  end.

(** The trace entry of a hook that invoked its continuation with [true]. *)
Definition rejected (stage : string) : Event :=
  Ev_hook stage (CallNext (Some true)).

(** What a run that contains a rejection looks like, for each stage whose
    continuation takes [isReject]. *)
Definition short_circuit (d : Deps) (stage : string) (run : Run) : Prop :=
  calls is_send (fst run) = 0 /\
  exists lc r b,
    snd run = Result lc (Some r) b /\
    ((stage = "beforePow" /\ lc = "checkPowDone") \/
     (stage = "beforeSignTx" /\ lc = "powDone" /\
      calls is_sign (fst run) = 0 /\
      exists b0, In (Ev_pow b0 (cpr_difficulty r)) (fst run) /\
                 builtinTxBlock_pow d b0 (cpr_difficulty r) = Return b) \/
     (stage = "beforeSendTx" /\ (lc = "checkPowDone" \/ lc = "signDone"))).

(** With no [freeze], the balance loop count follows the flag. *)
Definition balance_inv (s : Sched) : Prop :=
  balanceLoops s = if _lock (this s) then 0 else 1.

Definition receive_inv (s : Sched) : Prop :=
  receiveLoops s = if _autoReceive (this s) then 1 else 0.

End Account.

(* ================================================================== *)
(** ** The client class: getBalance and getTxList *)
(* ================================================================== *)

Module ClientQueries.

(** The RPC method names read from [_methods]; the constant module is not
    part of the snapshot, so the names are parameters. *)
Record MethodNames := mkMethodNames {
  ledger_getBlocksByAccAddr : string;
  ledger_getAccountByAccAddr : string;
  onroad_getAccountOnroadInfo : string
}.

Inductive Param :=
| PStr (s : string)
| PNum (z : Z).

Record RPCrequest := mkRequest {
  methodName : string;
  params : list Param
}.

(** An account block as the ledger lists it; [txType] is the property
    [getTxList] adds. *)
Record Item := mkItem {
  i_hash : string;
  i_toAddress : JsString;
  i_data : JsString;
  i_blockType : JsString;
  i_txType : JsString
}.

(** What the [result] of one answer of a batch may hold. *)
Inductive Payload :=
| Blocks (items : list Item)                 (* an array of blocks *)
| AccountInfo (totalNumber : option Z).      (* an account object *)

(** One answer of a batch; [None] is a null or missing [result]. *)
Record Response := mkResponse { result : option Payload }.

(** How a promise of these methods is rejected: with an error object, or
    with the TypeError of a property read on undefined or of a call of
    something that is no function. *)
Inductive Failure :=
| WithError (e : ErrObj)
| TypeError.

Inductive Settled (A : Type) :=
| Fulfilled (a : A)
| Rejected (f : Failure).
Arguments Rejected {A} f.

(** What the two methods call: the parameter checks (with
    [isValidHexAddr]), [this.batch], and the lookup
    [BuiltinTxType[getBuiltinTxType(toAddress, data, Number(blockType))]].
    A batch answers with an array, with a falsy value ([None]) or fails. *)
Record Deps := mkDeps {
  checkParams_addr : string -> option ErrObj;
  checkParams_addr_index : string -> Z -> option ErrObj;
  batch : list RPCrequest -> ErrObj + option (list Response);
  builtinTxTypeName : JsString -> JsString -> JsString -> JsString
}.

Record Balance := mkBalance {
  balance : option Payload;
  onroad : option Payload
}.

(** getBalance (lines 50-75): the batches sent, and the settled promise;
    [Fulfilled None] is the [null] result. *)
Definition getBalance (m : MethodNames) (d : Deps) (addr : string)
  : list (list RPCrequest) * Settled (option Balance) :=
  match checkParams_addr d addr with
  | Some err => ([], Rejected (WithError err))
  | None =>
      let requests :=
        [ {| methodName := ledger_getAccountByAccAddr m; params := [PStr addr] |};
          {| methodName := onroad_getAccountOnroadInfo m; params := [PStr addr] |} ] in
      ([requests],
       match batch d requests with
       | inl err => Rejected (WithError err)
       | inr None => Fulfilled None
       | inr (Some data) =>
           if Nat.ltb (List.length data) 2 then Fulfilled None
           else match data with
                | d0 :: d1 :: _ =>
                    Fulfilled (Some {| balance := result d0; onroad := result d1 |})
                | _ => Fulfilled None
                end
       end)
  end.

Record TxListArgs := mkTxListArgs {
  addr : string;
  index : Z;
  pageCount : option Z;        (* [None]: not given, defaults to 50 *)
  totalNum : option Z          (* [None]: not given or null *)
}.

Record TxList := mkTxList {
  tx_list : list Item;
  tx_totalNum : option Z
}.

(** [rawList] while the answers are read: not yet assigned, an array, or
    an object that is no array. *)
Inductive RawList :=
| Unassigned
| Items (items : list Item)
| NotAnArray.

(** [data[i].result || []] *)
Definition result_or_empty (r : Response) : RawList :=
  match result r with
  | None => Items []
  | Some (Blocks items) => Items items
  | Some (AccountInfo _) => NotAnArray
  end.

(** [data[i].result ? data[i].result.totalNumber : 0] *)
Definition totalNumber_or_zero (r : Response) : option Z :=
  match result r with
  | None => Some 0%Z
  | Some (AccountInfo n) => n
  | Some (Blocks _) => None
  end.

(** The [requests.forEach] of lines 108-114, from position [i] on; [None]
    is the TypeError of reading [data[i].result] on a missing answer. *)
Fixpoint read_answers (m : MethodNames) (data : list Response) (i : nat)
  (requests : list RPCrequest) (totalNum : option Z) (rawList : RawList)
  : option (option Z * RawList) :=
  match requests with
  | [] => Some (totalNum, rawList)
  | _r :: rest =>
      match nth_error data i with
      | None => None
      | Some answer =>
          if methodName _r =? ledger_getAccountByAccAddr m
          then read_answers m data (S i) rest (totalNumber_or_zero answer) rawList
          else read_answers m data (S i) rest totalNum (result_or_empty answer)
      end
  end.

(** The body of [rawList.forEach] (lines 117-121) for one item. *)
Definition with_txType (d : Deps) (item : Item) : Item :=
  {| i_hash := i_hash item;
     i_toAddress := i_toAddress item;
     i_data := i_data item;
     i_blockType := i_blockType item;
     i_txType := builtinTxTypeName d (i_toAddress item) (i_data item) (i_blockType item) |}.

(** getTxList (lines 77-124) *)
Definition getTxList (m : MethodNames) (d : Deps) (a : TxListArgs)
  : list (list RPCrequest) * Settled TxList :=
  match checkParams_addr_index d (addr a) (index a) with
  | Some err => ([], Rejected (WithError err))
  | None =>
      let pageCount := match pageCount a with Some p => p | None => 50%Z end in
      let index := if (0 <=? index a)%Z then index a else 0%Z in
      match totalNum a with
      | Some 0%Z => ([], Fulfilled {| tx_list := []; tx_totalNum := Some 0%Z |})
      | _ =>
          let requests :=
            ({| methodName := ledger_getBlocksByAccAddr m;
                params := [PStr (addr a); PNum index; PNum pageCount] |}
             :: match totalNum a with
                | None => [ {| methodName := ledger_getAccountByAccAddr m;
                               params := [PStr (addr a)] |} ]
                | Some _ => []
                end)%list in
          ([requests],
           match batch d requests with
           | inl err => Rejected (WithError err)
           | inr None => Rejected TypeError
           | inr (Some data) =>
               match read_answers m data 0 requests (totalNum a) Unassigned with
               | None => Rejected TypeError
               | Some (total, Items rawList) =>
                   Fulfilled {| tx_list := map (with_txType d) rawList;
                                tx_totalNum := total |}
               | Some (_, _) => Rejected TypeError
               end
           end)
      end
  end.

End ClientQueries.

(* ================================================================== *)
(** ** The client class: the method namespaces *)
(* ================================================================== *)

Module ClientNamespaces.

(** [String.prototype.toLowerCase] on the letters A-Z. *)
Definition lower_ascii (c : ascii) : ascii :=
  let n := nat_of_ascii c in
  if Nat.leb 65 n && Nat.leb n 90 then ascii_of_nat (n + 32) else c.

Fixpoint toLowerCase (s : string) : string :=
  match s with
  | EmptyString => EmptyString
  | String c rest => String (lower_ascii c) (toLowerCase rest)
  end.

(** A JavaScript object as its properties in insertion order. *)
Section Objects.
Variable V : Type.

Fixpoint get (o : list (string * V)) (k : string) : option V :=
  match o with
  | [] => None
  | (k', v) :: rest => if k' =? k then Some v else get rest k
  end.

(** [o[k] = v]: an existing property keeps its place. *)
Fixpoint set (o : list (string * V)) (k : string) (v : V) : list (string * V) :=
  match o with
  | [] => [(k, v)]
  | (k', v') :: rest =>
      if k' =? k then (k, v) :: rest else (k', v') :: set rest k v
  end.

End Objects.

(** A member of the client that [this[name]] can reach: [null], a
    namespace object (method name to RPC name, each method forwarding
    its arguments to [this.request(name, ...args)]), or anything else the
    class or its base class defines. *)
Inductive Member :=
| MNull
| MNamespace (methods : list (string * string))
| MOther.

(** Truthiness of [this[name]]; [None] is [undefined]. *)
Definition member_truthy (v : option Member) : bool :=
  match v with
  | Some (MNamespace _) | Some MOther => true
  | Some MNull | None => false
  end.

Record ClientState := mkClient {
  provider_type : JsString;                 (* this._provider.type *)
  members : list (string * Member)
}.

(** [_methods]: namespace to (method name to RPC name), in the order
    [for ... in] visits them. *)
Definition MethodTable := list (string * list (string * string)).

(** The namespace object built by the inner loop (lines 161-166). *)
Definition namespace_object (spaceMethods : list (string * string))
  : list (string * string) :=
  fold_left (fun ns entry => set ns (fst entry) (snd entry)) spaceMethods [].

Definition member_name (namespace : string) : string :=
  if namespace =? "subscribe" then "subscribeFunc" else namespace.

(** One turn of the outer loop of [_setMethodsName] (lines 149-167). *)
Definition install (ipc : bool) (o : list (string * Member))
  (entry : string * list (string * string)) : list (string * Member) :=
  let namespace := fst entry in
  if negb ipc && (namespace =? "wallet") then set o "wallet" MNull
  else
    let _namespace := member_name namespace in
    if member_truthy (get o _namespace) then o
    else set o _namespace (MNamespace (namespace_object (snd entry))).

(** [(this._provider.type || 'http').toLowerCase()], compared to ['ipc']. *)
Definition is_ipc (c : ClientState) : bool :=
  toLowerCase (or_else (provider_type c) "http") =? "ipc".

(** _setMethodsName (lines 146-168) *)
Definition _setMethodsName (table : MethodTable) (c : ClientState) : ClientState :=
  {| provider_type := provider_type c;
     members := fold_left (install (is_ipc c)) table (members c) |}.

(** The values met in the guard of [setProvider]: a string, or the
    function found under a property name of a string. *)
Inductive Value :=
| VString (s : string)
| VFunction (name : string).

Definition strict_equal (a b : Value) : bool :=
  match a, b with
  | VString s, VString t => s =? t
  | VFunction f, VFunction g => f =? g
  | _, _ => false
  end.

(** [providerType.toLowerCase]: the property read, without a call. *)
Definition read_toLowerCase (providerType : string) : Value :=
  VFunction "toLowerCase".

(** setProvider (lines 39-48); [_setProvider] of the base class stores
    the provider. *)
Definition setProvider (table : MethodTable) (c : ClientState) (new_type : JsString)
  : ClientState :=
  let c1 := {| provider_type := new_type; members := members c |} in
  let providerType := or_else (provider_type c1) "http" in
  if negb (strict_equal (read_toLowerCase providerType) (VString "ipc"))
     || member_truthy (get (members c1) "wallet")
  then c1
  else _setMethodsName table c1.

(** The constructor (lines 31-37): the base class stores the provider,
    [buildinTxBlock] is created, the namespaces are installed.
    [inherited] holds the members the base class provides. *)
Definition constructor (table : MethodTable) (inherited : list (string * Member))
  (provider_type : JsString) : ClientState :=
  _setMethodsName table
    {| provider_type := provider_type;
       members := set inherited "buildinTxBlock" MOther |}.

(** Calling [client[namespace][method](...args)]: the RPC name handed to
    [this.request], if the member is a namespace with that method. *)
Definition call (c : ClientState) (namespace method : string) : option string :=
  match get (members c) namespace with
  | Some (MNamespace methods) => get methods method
  | _ => None
  end.

End ClientNamespaces.

(* ================================================================== *)
(** ** Concrete inputs *)
(* ================================================================== *)

Module Examples.
Import AccountBlock.

(** The text of a key, whichever shape it has. *)
Definition keyText (k : Key) : string :=
  match k with
  | KBuffer b => string_of_list_byte b
  | KHex h => h
  end.

(** A stand-in for the imports, used to run the class on concrete inputs:
    a block must carry a type and an address, a key must be a non-empty
    buffer or string, and the address of a key is ["vite_"] followed by the
    key text. *)
Definition demoImports : Imports :=
  {| checkAccountBlock := fun a =>
       match a_blockType a, a_address a with
       | Some _, Some _ => None
       | _, _ => Some {| code := "MissingParam"; message := "blockType, address" |}
       end;
     getAccountBlockHash := fun b =>
       Utils.getAmountHex (AccountBlockBlock.amount b);
     checkParams_previousHash := fun b =>
       match AccountBlockBlock.previousHash b with
       | Some _ => None
       | None => Some {| code := "MissingParam"; message := "previousHash" |}
       end;
     checkParams_nonce := fun d p =>
       match d, p with
       | Some _, Some _ => None
       | _, _ => Some {| code := "MissingParam"; message := "difficulty, previousHash" |}
       end;
     checkParams_key := fun name k =>
       if keyText k =? "" then Some {| code := "MissingParam"; message := name |}
       else None;
     getRealAddressFromAddress := fun a => or_else a "";
     createAddressByPrivateKey := fun b =>
       ("vite_" ++ string_of_list_byte b, b);
     getAddressFromPublicKey := fun k => "vite_" ++ keyText k;
     ed25519_sign := fun h k => h ++ string_of_list_byte k;
     blake2bHex := string_of_list_byte;
     Buffer_from_hex := list_byte_of_string;
     Buffer_toString_base64 := string_of_list_byte |}.

Definition validArgs : Args :=
  {| a_blockType := Some 2; a_address := Some "vite_ab";
     a_fee := Some "0"; a_data := None; a_sendBlockHash := None;
     a_amount := Some "100"; a_toAddress := Some "vite_cd";
     a_tokenId := Some "tti_5649544520544f4b454e6e40" |}.

Definition argsWithoutAddress : Args :=
  {| a_blockType := Some 2; a_address := None;
     a_fee := Some "0"; a_data := None; a_sendBlockHash := None;
     a_amount := Some "100"; a_toAddress := Some "vite_cd";
     a_tokenId := Some "tti_5649544520544f4b454e6e40" |}.

(** The instance the field assignments of the constructor produce. *)
Definition instanceOf (a : Args) : AccountBlockClass :=
  {| blockType := a_blockType a; address := a_address a; fee := a_fee a;
     data := a_data a; sendBlockHash := a_sendBlockHash a;
     toAddress := a_toAddress a; tokenId := a_tokenId a; amount := a_amount a;
     height := None; previousHash := None; difficulty := None; nonce := None;
     signature := None; publicKey := None |}.

Definition tipAtHeight0 : Tip :=
  {| tip_height := Some "0";
     tip_hash := Some "c8c1ece4a09c8e4d3f8a1a4e4a1b2c3d4e5f60718293a4b5c6d7e8f901234567" |}.

Definition demoInstance : AccountBlockClass :=
  setHeight (instanceOf validArgs) "1" Default_Hash.

End Examples.

Module HashExamples.
Import Utils.



End HashExamples.

Module ClientExamples.
Import Client.

(** A ledger that turns every block away, behind a signer that appends a
    mark to the block. *)
Definition refusing : Deps string :=
  {| checkParams := fun _ _ => None;
     signAccountBlock := fun b _ => inr (b ++ "+sig");
     tx_sendRawTx := fun _ => inl {| code := "-35002"; message := "rejected" |} |}.

End ClientExamples.

Module AccountExamples.
Import Account.

Definition demoAccount : AccountClass :=
  {| address := "vite_ab"; privateKey := "ab"; autoPow := false;
     usePledgeQuota := true; _lock := true; _autoReceive := false |}.

Definition demoBlock : Block :=
  {| accountAddress := Some "vite_ab"; prevHash := Some AccountBlock.Default_Hash;
     blockType := Some 2; toAddress := Some "vite_cd"; data := None;
     difficulty := None; nonce := None; publicKey := None; signature := None |}.

Definition mined (b : Block) (d : JsString) : Block :=
  {| accountAddress := accountAddress b; prevHash := prevHash b;
     blockType := blockType b; toAddress := toAddress b; data := data b;
     difficulty := d; nonce := Some "bm9uY2U="; publicKey := publicKey b;
     signature := signature b |}.

Definition signedWith (b : Block) (key : string) : Block :=
  {| accountAddress := accountAddress b; prevHash := prevHash b;
     blockType := blockType b; toAddress := toAddress b; data := data b;
     difficulty := difficulty b; nonce := nonce b; publicKey := Some key;
     signature := Some "c2ln" |}.

(** A node that answers every call; [difficulty] is what its assessment
    reports. *)
Definition node (difficulty : JsString) : Deps :=
  {| getBlock := fun _ _ => Return demoBlock;
     calcPoWDifficulty := fun _ =>
       Return {| cpr_requiredQuota := Some "21000"; cpr_difficulty := difficulty;
                 cpr_qc := Some "1"; cpr_isCongestion := false |};
     builtinTxBlock_pow := fun b d => Return (mined b d);
     import_signAccountBlock := fun b k => Return (signedWith b k);
     client_sendRawTx := fun _ => Return tt |}.

Definition noHooks : Hooks :=
  {| beforeCheckPow := None; beforePow := None;
     beforeSignTx := None; beforeSendTx := None |}.

Definition rejecting : Block -> option CheckPowResult -> HookAction :=
  fun _ _ => CallNext (Some true).

Definition pendingA : OnroadBlock :=
  {| ob_hash := "a1"; ob_fromAddress := "vite_cd" |}.

Definition pendingB : OnroadBlock :=
  {| ob_hash := "b2"; ob_fromAddress := "vite_ef" |}.

Definition refused : Net := {| fetch_ok := true; build_ok := true; accepted := false |}.

End AccountExamples.

(* ================================================================== *)
(** ** Further notions and inputs *)
(* ================================================================== *)

Module Frames.
Import AccountBlock.

(** Two instances that agree on every field but [publicKey]. *)
Definition same_except_publicKey (a b : AccountBlockClass) : Prop :=
  blockType a = blockType b /\ address a = address b /\ fee a = fee b /\
  data a = data b /\ sendBlockHash a = sendBlockHash b /\
  toAddress a = toAddress b /\ tokenId a = tokenId b /\ amount a = amount b /\
  height a = height b /\ previousHash a = previousHash b /\
  difficulty a = difficulty b /\ nonce a = nonce b /\
  signature a = signature b.

(** A character from '0' to '9'. *)
Definition is_digit (a : ascii) : bool :=
  (48 <=? N_of_ascii a)%N && (N_of_ascii a <=? 57)%N.

(** Text made of decimal digits only (the empty text included): the
    heights a node reports. *)
Fixpoint decimal_text (s : string) : bool :=
  match s with
  | EmptyString => true
  | String a s' => is_digit a && decimal_text s'
  end.

(** The height of the chain tip as [getHeight] reads it: the empty text
    when there is no tip or the tip has no height. *)
Definition tip_height_text (previousAccountBlock : option Tip) : string :=
  match previousAccountBlock with
  | Some t => or_else (tip_height t) ""
  | None => ""
  end.

End Frames.

Module QueryNotions.
Import ClientQueries.

Definition names : MethodNames :=
  {| ledger_getBlocksByAccAddr := "ledger_getBlocksByAccAddr";
     ledger_getAccountByAccAddr := "ledger_getAccountByAccAddr";
     onroad_getAccountOnroadInfo := "onroad_getAccountOnroadInfo" |}.

(** The two requests of [getBalance] for an address. *)
Definition balanceRequests (m : MethodNames) (addr : string) : list RPCrequest :=
  [ {| methodName := ledger_getAccountByAccAddr m; params := [PStr addr] |};
    {| methodName := onroad_getAccountOnroadInfo m; params := [PStr addr] |} ].

(** The page request of [getTxList]: the index is never negative, the
    page size is 50 unless given. *)
Definition pageRequest (m : MethodNames) (a : TxListArgs) : RPCrequest :=
  {| methodName := ledger_getBlocksByAccAddr m;
     params := [PStr (addr a);
                PNum (Z.max 0 (index a));
                PNum (match pageCount a with Some p => p | None => 50%Z end)] |}.

Definition accountRequest (m : MethodNames) (a : TxListArgs) : RPCrequest :=
  {| methodName := ledger_getAccountByAccAddr m; params := [PStr (addr a)] |}.

Definition itemA : Item :=
  {| i_hash := "a1"; i_toAddress := Some "vite_cd"; i_data := None;
     i_blockType := Some "2"; i_txType := None |}.

Definition itemB : Item :=
  {| i_hash := "b2"; i_toAddress := Some "vite_ab"; i_data := None;
     i_blockType := Some "4"; i_txType := None |}.

(** A node with two blocks and an account of 7 blocks; every address that
    is not empty passes the check. *)
Definition queryNode : Deps :=
  {| checkParams_addr := fun a =>
       if a =? "" then Some {| code := "-32002"; message := "addr" |} else None;
     checkParams_addr_index := fun a _ =>
       if a =? "" then Some {| code := "-32002"; message := "addr" |} else None;
     batch := fun reqs =>
       inr (Some (map (fun r =>
                         if methodName r =? "ledger_getBlocksByAccAddr"
                         then {| result := Some (Blocks [itemA; itemB]) |}
                         else {| result := Some (AccountInfo (Some 7%Z)) |}) reqs));
     builtinTxTypeName := fun _ _ t =>
       match t with Some "2" => Some "TxReq" | _ => Some "TxRes" end |}.

End QueryNotions.

Module NamespaceNotions.
Import ClientNamespaces.

(** A small method table in the shape of [_methods]. *)
Definition demoTable : MethodTable :=
  [ ("wallet", [("lock", "wallet_lock"); ("unlock", "wallet_unlock")]);
    ("ledger", [("getLatestBlock", "ledger_getLatestBlock");
                ("getBlocksByHash", "ledger_getBlocksByHash")]);
    ("subscribe", [("newAccountBlocks", "subscribe_newAccountBlocks")]);
    ("tx", [("sendRawTx", "tx_sendRawTx")]) ].

(** What the base class contributes: its [request] and [batch] methods. *)
Definition baseMembers : list (string * Member) :=
  [ ("request", MOther); ("batch", MOther) ].

(** An entry of the table is settled in an object when a further turn of
    the loop for it would change nothing. *)
Definition settled (ipc : bool) (o : list (string * Member))
  (entry : string * list (string * string)) : Prop :=
  if negb ipc && (fst entry =? "wallet")
  then get o "wallet" = Some MNull
  else member_truthy (get o (member_name (fst entry))) = true.

End NamespaceNotions.

Module PipelineNotions.
Import Account.

(** The external call recorded by a trace entry threw [t]. *)
Definition thrown_by (d : Deps) (this : AccountClass) (e : Event) (t : Thrown) : Prop :=
  match e with
  | Ev_getBlock methodName params => getBlock d methodName params = Throw t
  | Ev_calcPoWDifficulty args => calcPoWDifficulty d args = Throw t
  | Ev_pow b dif => builtinTxBlock_pow d b dif = Throw t
  | Ev_sign b => signAccountBlock d this b = Throw t
  | Ev_send b => sendAccountBlock d b = Throw t
  | Ev_hook _ _ => False
  end.

(** The block [signAccountBlock] hands to the imported signer. *)
Definition with_address (this : AccountClass) (b : Block) : Block :=
  {| accountAddress := Some (address this);
     prevHash := prevHash b; blockType := blockType b;
     toAddress := toAddress b; data := data b;
     difficulty := difficulty b; nonce := nonce b;
     publicKey := publicKey b; signature := signature b |}.

Definition is_calc (e : Event) : bool :=
  match e with Ev_calcPoWDifficulty _ => true | _ => false end.

Definition is_kept (e : Event) : bool :=
  match e with Ev_hook _ NoCall => true | _ => false end.

(** How the outcome of a run relates to its trace: a 'finish' result
    ends with the accepted submission of the block it returns, any other
    result and a kept continuation come without a submission, and a
    failure is the error of the last call made. *)
Definition sound (d : Deps) (this : AccountClass) (run : Run) : Prop :=
  match snd run with
  | Result lc r b =>
      (lc = "finish" /\ calls is_send (fst run) = 1 /\
       sendAccountBlock d b = Return tt /\
       exists prefix, fst run = (prefix ++ [Ev_send b])%list) \/
      (lc <> "finish" /\ calls is_send (fst run) = 0)
  | Failed t =>
      exists prefix e, fst run = (prefix ++ [e])%list /\ thrown_by d this e t
  | HookKept =>
      calls is_send (fst run) = 0 /\
      exists prefix stage, fst run = (prefix ++ [Ev_hook stage NoCall])%list
  end /\
  (calls is_kept (fst run) <> 0 -> snd run = HookKept).

(** A node whose difficulty assessment fails. *)
Definition failingOracle : Deps :=
  {| getBlock := fun _ _ => Return AccountExamples.demoBlock;
     calcPoWDifficulty := fun _ => Throw (ThrowError "timeout");
     builtinTxBlock_pow := fun b d => Return (AccountExamples.mined b d);
     import_signAccountBlock := fun b k => Return (AccountExamples.signedWith b k);
     client_sendRawTx := fun _ => Return tt |}.

End PipelineNotions.

Module LoopNotions.
Import Account.

Definition is_activate (e : LoopEvent) : bool :=
  match e with Activate => true | _ => false end.

(** Events through which [_autoReceive] is set to true. *)
Definition starts_receive (e : LoopEvent) : bool :=
  match e with
  | AutoReceiveTx | BalanceSettled (Some true) => true
  | _ => false
  end.

Definition submissions (tick : list RecvEvent) : list Submission :=
  flat_map (fun e => match e with Ev_submit s => [s] | _ => [] end) tick.

(** How far a frozen account may have moved from [s0]: still frozen, no
    new balance request, no new balance loop. *)
Definition frozen_since (s0 s : Sched) : Prop :=
  _lock (this s0) = true ->
  _lock (this s) = true /\
  balanceRequests s <= balanceRequests s0 /\
  balanceLoops s <= balanceLoops s0.

Definition stopped_since (s0 s : Sched) : Prop :=
  _autoReceive (this s0) = false ->
  _autoReceive (this s) = false /\
  receiveRequests s <= receiveRequests s0 /\
  receiveLoops s <= receiveLoops s0.

End LoopNotions.

(* ================================================================== *)
(** ** Properties of accountBlock.ts *)
(* ================================================================== *)

Module AccountBlockFacts.
Import AccountBlock Examples.

(** *** The two getters *)

Lemma getters_exhaust_stack (u : Imports) (this : AccountBlockClass) (depth : nat) :
  get_accountBlock depth u this = None /\ get_hash depth u this = None.
Proof.
  induction depth as [|d [IHa IHh]]; simpl.
  - split; reflexivity.
  - rewrite IHa, IHh. split; reflexivity.
Qed.

Lemma get_hash_none (u : Imports) (this : AccountBlockClass) (depth : nat) :
  get_hash depth u this = None.
Proof. apply getters_exhaust_stack. Qed.

Lemma get_accountBlock_none (u : Imports) (this : AccountBlockClass) (depth : nat) :
  get_accountBlock depth u this = None.
Proof. apply getters_exhaust_stack. Qed.

(** *** C1 *)

(** C1 (fails on the code): the constructor's guard is [if (!err) throw
    err].  When [checkAccountBlock] reports nothing, the constructor throws
    (the falsy value itself, carrying no kind); when it reports an error,
    the constructor throws nothing and returns the instance built from the
    unchecked fields. *)
Theorem constructor_guard_inverted (u : Imports) (a : Args) :
  (checkAccountBlock u a = None -> constructor u a = Throw ThrowFalsy) /\
  (forall e, checkAccountBlock u a = Some e ->
             constructor u a = Return (instanceOf a)).
Proof.
  unfold constructor, instanceOf. split.
  - intros ->. reflexivity.
  - intros e ->. reflexivity.
Qed.

Lemma constructor_guard_inverted_witness :
  constructor demoImports validArgs = Throw ThrowFalsy /\
  constructor demoImports argsWithoutAddress = Return (instanceOf argsWithoutAddress).
Proof.
  split.
  - apply (proj1 (constructor_guard_inverted demoImports validArgs)).
    reflexivity.
  - apply (proj2 (constructor_guard_inverted demoImports argsWithoutAddress)
             {| code := "MissingParam"; message := "blockType, address" |}).
    reflexivity.
Defined.

Lemma strict_neq_false (a : JsString) (b : string) :
  strict_neq a b = false <-> a = Some b.
Proof.
  unfold strict_neq. destruct a as [s|]; [| split; discriminate].
  destruct (String.eqb_spec s b) as [->|Hne]; simpl; split; intros H;
    try reflexivity; try discriminate.
  injection H as H. contradiction.
Qed.

(** The two key checks, on their own: a key whose address is not the
    block's is refused with the message of its method, and the block is
    left as it was; neither method issues a request. *)
Lemma setPublicKey_checks_address (u : Imports) (this : AccountBlockClass) (pub : Key) :
  checkParams_key u "publicKey" pub = None ->
  (address this <> Some (getAddressFromPublicKey u pub) ->
     setPublicKey u this pub = (this, Throw (ThrowError "PublicKey is wrong."))) /\
  (address this = Some (getAddressFromPublicKey u pub) ->
     snd (setPublicKey u this pub) = Return tt /\
     publicKey (fst (setPublicKey u this pub))
       = Some (Buffer_toString_base64 u (toBuffer u pub))).
Proof.
  intros Hc. unfold setPublicKey. rewrite Hc.
  destruct (strict_neq (address this) (getAddressFromPublicKey u pub)) eqn:E.
  - split; [reflexivity |]. intros H. apply strict_neq_false in H. congruence.
  - apply strict_neq_false in E. split; [contradiction |]. intros _. split; reflexivity.
Qed.

Lemma sign_checks_address (depth : nat) (u : Imports) (this : AccountBlockClass)
  (privateKey : Key) :
  checkParams_key u "privateKey" privateKey = None ->
  address this <> Some (fst (createAddressByPrivateKey u (toBuffer u privateKey))) ->
  sign depth u this privateKey = (this, Throw (ThrowError "PrivateKey is wrong.")).
Proof.
  intros Hc Hne. unfold sign. rewrite Hc.
  destruct (createAddressByPrivateKey u (toBuffer u privateKey)) as [addr pub].
  simpl in Hne.
  destruct (strict_neq (address this) addr) eqn:E; [reflexivity |].
  apply strict_neq_false in E. contradiction.
Qed.

(** *** C2 *)

Lemma toString_nonempty (n : N) : BigNumber.toString n <> "".
Proof.
  unfold BigNumber.toString.
  destruct n as [|p]; simpl.
  - discriminate.
  - pose proof (DecimalPos.Unsigned.to_uint_nonnil p) as Hn.
    destruct (Pos.to_uint p); simpl; try discriminate. now elim Hn.
Qed.

Lemma ofString_toString (n : N) : BigNumber.ofString (BigNumber.toString n) = Some n.
Proof.
  unfold BigNumber.ofString, BigNumber.toString.
  rewrite DecimalString.NilEmpty.usu. simpl.
  now rewrite DecimalN.Unsigned.of_to.
Qed.

Lemma truthy_nonempty (s : string) : s <> "" -> truthy (Some s) = true.
Proof.
  intros H. simpl. destruct (String.eqb_spec s ""); [contradiction | reflexivity].
Qed.

Lemma or_else_truthy (s d : string) : s <> "" -> or_else (Some s) d = s.
Proof.
  intros H. unfold or_else. now rewrite truthy_nonempty.
Qed.

(** C2 (as stated, refuted): for a tip whose height is 0 and which carries
    a hash, getHeight returns height '1' with the tip's hash, not the
    sentinel. *)
Lemma getHeight_height0_keeps_tip_hash :
  getHeight_of (Some tipAtHeight0)
    = Some ("1", "c8c1ece4a09c8e4d3f8a1a4e4a1b2c3d4e5f60718293a4b5c6d7e8f901234567")
  /\ getHeight_of (Some tipAtHeight0) <> Some ("1", Default_Hash).
Proof.
  split.
  - reflexivity.
  - discriminate.
Qed.

(** C2 (amended): height and previousHash are decided independently.  The
    height is '1' when the tip is absent or its height is absent or empty,
    and the decimal successor of the tip's height otherwise (so '1' again
    for height '0').  The previousHash is the tip's hash when the tip
    carries a non-empty one and the sentinel otherwise.  For a tip that is
    block n of the chain this gives height n+1 and previousHash = hash of
    block n. *)
Theorem getHeight_of_amended :
  getHeight_of None = Some ("1", Default_Hash) /\
  (forall t, truthy (tip_height t) = false ->
     getHeight_of (Some t) = Some ("1", or_else (tip_hash t) Default_Hash)) /\
  (forall t n, tip_height t = Some (BigNumber.toString n) ->
     getHeight_of (Some t)
       = Some (BigNumber.toString (n + 1), or_else (tip_hash t) Default_Hash)) /\
  (forall n h, h <> "" ->
     getHeight_of (Some {| tip_height := Some (BigNumber.toString n);
                           tip_hash := Some h |})
       = Some (BigNumber.toString (n + 1), h)).
Proof.
  assert (Hsucc : forall t n, tip_height t = Some (BigNumber.toString n) ->
     getHeight_of (Some t)
       = Some (BigNumber.toString (n + 1), or_else (tip_hash t) Default_Hash)).
  { intros t n Hh. unfold getHeight_of. rewrite Hh.
    rewrite (or_else_truthy _ (toString_nonempty n)).
    rewrite (truthy_nonempty (toString_nonempty n)).
    now rewrite ofString_toString. }
  repeat split.
  - intros t Hf. unfold getHeight_of.
    assert (Hh : or_else (tip_height t) "" = "").
    { unfold or_else. destruct (tip_height t) as [s|]; [now rewrite Hf | reflexivity]. }
    now rewrite Hh.
  - exact Hsucc.
  - intros n h Hh.
    rewrite (Hsucc {| tip_height := Some (BigNumber.toString n);
                      tip_hash := Some h |} n eq_refl). simpl tip_hash.
    now rewrite (or_else_truthy _ Hh).
Qed.

Lemma getHeight_of_amended_witness :
  getHeight_of (Some {| tip_height := Some ""; tip_hash := Some "ab" |})
    = Some ("1", "ab") /\
  getHeight_of (Some {| tip_height := Some "41"; tip_hash := None |})
    = Some ("42", Default_Hash) /\
  getHeight_of (Some {| tip_height := Some "99"; tip_hash := Some "ab" |})
    = Some ("100", "ab").
Proof.
  destruct getHeight_of_amended as (_ & Hfalsy & Hsucc & Hchain).
  split; [| split].
  - apply (Hfalsy {| tip_height := Some ""; tip_hash := Some "ab" |}). reflexivity.
  - apply (Hsucc {| tip_height := Some "41"; tip_hash := None |} 41%N). reflexivity.
  - apply (Hchain 99%N "ab"). discriminate.
Defined.

(** *** C5 *)

(** C5 (fails on the code): [sign] never returns a block.  After the key
    checks it evaluates [this.hash]; the [hash] getter asks for
    [this.accountBlock] and the [accountBlock] getter asks for [this.hash],
    so the evaluation ends in the engine's stack error whatever the stack
    depth.  No signature is ever stored. *)
Theorem sign_never_returns (depth : nat) (u : Imports) (this : AccountBlockClass)
  (privateKey : Key) :
  (forall blk, snd (sign depth u this privateKey) <> Return blk) /\
  signature (fst (sign depth u this privateKey)) = signature this.
Proof.
  unfold sign.
  destruct (checkParams_key u "privateKey" privateKey); [split; [discriminate | reflexivity] |].
  destruct (createAddressByPrivateKey u (toBuffer u privateKey)) as [addr pub].
  destruct (strict_neq (address this) addr); [split; [discriminate | reflexivity] |].
  unfold setPublicKey.
  destruct (checkParams_key u "publicKey" (KBuffer pub)); [split; [discriminate | reflexivity] |].
  destruct (strict_neq (address this) (getAddressFromPublicKey u (KBuffer pub)));
    [split; [discriminate | reflexivity] |].
  rewrite get_hash_none. split; [discriminate | reflexivity].
Qed.

(** When both key checks pass, [sign] has stored the public key of the
    private key, whose address is the block's address, before the stack
    error is thrown. *)
Lemma sign_stack_error_after_key_checks (depth : nat) (u : Imports)
  (this : AccountBlockClass) (privateKey : Key) :
  snd (sign depth u this privateKey) = Throw ThrowRangeError ->
  let pub := snd (createAddressByPrivateKey u (toBuffer u privateKey)) in
  address this = Some (getAddressFromPublicKey u (KBuffer pub)) /\
  publicKey (fst (sign depth u this privateKey))
    = Some (Buffer_toString_base64 u pub).
Proof.
  unfold sign.
  destruct (checkParams_key u "privateKey" privateKey); [discriminate |].
  destruct (createAddressByPrivateKey u (toBuffer u privateKey)) as [addr pub].
  destruct (strict_neq (address this) addr); [discriminate |].
  unfold setPublicKey.
  destruct (checkParams_key u "publicKey" (KBuffer pub)); [discriminate |].
  destruct (strict_neq (address this) (getAddressFromPublicKey u (KBuffer pub))) eqn:E;
    [discriminate |].
  rewrite get_hash_none. intros _. simpl.
  apply strict_neq_false in E. split; [exact E | reflexivity].
Qed.

(** [sign] at a key whose address is the block's address: the public key
    is stored, then the stack error is thrown. *)
Lemma sign_matching_key_throws (depth : nat) :
  snd (sign depth demoImports demoInstance (KHex "ab")) = Throw ThrowRangeError /\
  publicKey (fst (sign depth demoImports demoInstance (KHex "ab"))) = Some "ab" /\
  signature (fst (sign depth demoImports demoInstance (KHex "ab"))) = None.
Proof.
  unfold sign. cbn -[get_hash get_accountBlock].
  rewrite get_hash_none. repeat split.
Qed.

End AccountBlockFacts.

(* ================================================================== *)
(** ** Properties of the content hash *)
(* ================================================================== *)

Module HashFacts.
Import Utils HashExamples.

(** *** Strings *)




(** *** The amount encoder *)




(** *** C6 *)









End HashFacts.

(* ================================================================== *)
(** ** Properties of the client's sendRawTx *)
(* ================================================================== *)

Module ClientFacts.
Import Client ClientExamples.

(** C7: when the ledger rejects the submission, [sendRawTx] has called
    [tx.sendRawTx] exactly once, with the signed block, and its promise is
    rejected with the ledger's error carrying that signed block as
    [accountBlock]. *)
Theorem sendRawTx_rejection_carries_block (Block : Type) (d : Deps Block)
  (accountBlock : Block) (privateKey : Key) (signed : Block) (err : ErrObj) :
  checkParams d accountBlock privateKey = None ->
  signAccountBlock d accountBlock privateKey = inr signed ->
  tx_sendRawTx d signed = inl err ->
  sendRawTx d accountBlock privateKey
    = ([signed], Rejected {| error := err; accountBlock := Some signed |}).
Proof.
  intros Hc Hs Ht. unfold sendRawTx. now rewrite Hc, Hs, Ht.
Qed.

Lemma sendRawTx_rejection_carries_block_witness :
  sendRawTx refusing "block" (KHex "ab")
    = (["block+sig"],
       Rejected {| error := {| code := "-35002"; message := "rejected" |};
                   accountBlock := Some "block+sig" |}).
Proof.
  apply (sendRawTx_rejection_carries_block refusing "block" (KHex "ab")
           (signed := "block+sig")
           (err := {| code := "-35002"; message := "rejected" |}));
    reflexivity.
Defined.

End ClientFacts.

(* ================================================================== *)
(** ** Properties of sendPowTx *)
(* ================================================================== *)

Module PipelineFacts.
Import Account AccountExamples.

(** *** Traces *)

Lemma calls_app (p : Event -> bool) (a b : list Event) :
  calls p (a ++ b) = calls p a + calls p b.
Proof. unfold calls. now rewrite filter_app, length_app. Qed.

Lemma fst_after (evs : list Event) (r : Run) : fst (after evs r) = (evs ++ fst r)%list.
Proof. reflexivity. Qed.

Lemma snd_after (evs : list Event) (r : Run) : snd (after evs r) = snd r.
Proof. reflexivity. Qed.

(** The send stage never mines and never signs. *)
Lemma beforeSendTx_calls (d : Deps) (h : Hooks) (lc : string)
  (r : option CheckPowResult) (b : Block) :
  calls is_pow (fst (_beforeSendTx d h lc r b)) = 0 /\
  calls is_sign (fst (_beforeSendTx d h lc r b)) = 0.
Proof.
  unfold _beforeSendTx, sendTxFunc.
  destruct (beforeSendTx h) as [hook|]; [| split; reflexivity].
  destruct (hook b r) as [[[|]|]|]; split; reflexivity.
Qed.

(** *** C9 *)

(** C9: with no hooks and a falsy difficulty, the calls of the pipeline
    are getBlock, the difficulty assessment and the submission of the very
    block getBlock returned; signAccountBlock is not called, so the
    pipeline puts neither signature nor publicKey on the block it
    submits. *)
Theorem falsy_difficulty_submits_unsigned (d : Deps) (this : AccountClass)
  (methodName : string) (params : list string) (b : Block) (r : CheckPowResult) :
  getBlock d methodName params = Return b ->
  calcPoWDifficulty d (calcArgs b true) = Return r ->
  truthy (cpr_difficulty r) = false ->
  fst (sendPowTx d this noHooks methodName params)
    = [Ev_getBlock methodName params;
       Ev_calcPoWDifficulty (calcArgs b true);
       Ev_send b] /\
  calls is_sign (fst (sendPowTx d this noHooks methodName params)) = 0 /\
  snd (sendPowTx d this noHooks methodName params)
    = match sendAccountBlock d b with
      | Throw t => Failed t
      | Return _ => Result "finish" (Some r) b
      end.
Proof.
  intros Hg Hc Hd.
  assert (E : sendPowTx d this noHooks methodName params
              = ([Ev_getBlock methodName params;
                  Ev_calcPoWDifficulty (calcArgs b true);
                  Ev_send b],
                 match sendAccountBlock d b with
                 | Throw t => Failed t
                 | Return _ => Result "finish" (Some r) b
                 end)).
  { unfold sendPowTx. rewrite Hg. simpl beforeCheckPow. cbv iota.
    unfold checkFunc. rewrite Hc, Hd. reflexivity. }
  rewrite E. repeat split.
Qed.

Lemma falsy_difficulty_submits_unsigned_witness :
  fst (sendPowTx (node None) demoAccount noHooks "asyncSendTx" ["vite_cd"; "100"])
    = [Ev_getBlock "asyncSendTx" ["vite_cd"; "100"];
       Ev_calcPoWDifficulty (calcArgs demoBlock true);
       Ev_send demoBlock] /\
  signature demoBlock = None.
Proof.
  split; [| reflexivity].
  apply (falsy_difficulty_submits_unsigned (node None) demoAccount
           "asyncSendTx" ["vite_cd"; "100"] (b := demoBlock)
           (r := {| cpr_requiredQuota := Some "21000"; cpr_difficulty := None;
                    cpr_qc := Some "1"; cpr_isCongestion := false |}));
    reflexivity.
Defined.

(** *** C3 *)

(** C3 (as stated, refuted): the difficulty is falsy and a [beforeSendTx]
    hook rejects; the pipeline ends with lifeCycle 'checkPowDone', not
    'finish'. *)
Lemma falsy_difficulty_rejected_before_send :
  snd (sendPowTx (node None) demoAccount
         {| beforeCheckPow := None; beforePow := None;
            beforeSignTx := None; beforeSendTx := Some rejecting |}
         "asyncSendTx" ["vite_cd"; "100"])
    = Result "checkPowDone"
        (Some {| cpr_requiredQuota := Some "21000"; cpr_difficulty := None;
                 cpr_qc := Some "1"; cpr_isCongestion := false |})
        demoBlock.
Proof. reflexivity. Qed.

(** C3 (amended): whenever the difficulty assessment returns a falsy
    difficulty, the pipeline never calls the nonce solver; it ends in
    'finish' when, in addition, the [beforeSendTx] hook (if any) lets it
    proceed and the submission succeeds.  In [autoSetNonce], once the
    assessment has returned a falsy difficulty, no nonce is requested and
    nonce is set to null. *)
Theorem falsy_difficulty_skips_pow :
  (forall (d : Deps) (this : AccountClass) (h : Hooks) (methodName : string)
          (params : list string) (b : Block) (upq : bool) (r : CheckPowResult),
     getBlock d methodName params = Return b ->
     checkPow_arg h b = Some upq ->
     calcPoWDifficulty d (calcArgs b upq) = Return r ->
     truthy (cpr_difficulty r) = false ->
     calls is_pow (fst (sendPowTx d this h methodName params)) = 0 /\
     (sendTx_arg h b (Some r) = Some false ->
      sendAccountBlock d b = Return tt ->
      snd (sendPowTx d this h methodName params) = Result "finish" (Some r) b)) /\
  (forall (u : AccountBlock.Imports) (api : AccountBlock.ViteAPI)
          (blk : AccountBlock.AccountBlockClass)
          (result : AccountBlock.PoWDifficultyResult),
     truthy (AccountBlock.pow_difficulty result) = false ->
     AccountBlock.autoSetNonce_resume u api blk result
       = ([],
          AccountBlock.setNonce
            (AccountBlock.setDifficulty blk (AccountBlock.pow_difficulty result)) None,
          Return (AccountBlock.pow_difficulty result, None))).
Proof.
  split.
  - intros d this h methodName params b upq r Hg Ha Hc Hd.
    assert (E : sendPowTx d this h methodName params
                = after (Ev_getBlock methodName params
                         :: match beforeCheckPow h with
                            | None => []
                            | Some hook => [Ev_hook "beforeCheckPow" (hook b)]
                            end
                         ++ [Ev_calcPoWDifficulty (calcArgs b upq)])
                    (_beforeSendTx d h "checkPowDone" (Some r) b)).
    { unfold sendPowTx, checkPow_arg in *. rewrite Hg.
      destruct (beforeCheckPow h) as [hook|].
      - destruct (hook b) as [arg|]; [| discriminate].
        injection Ha as Ha. rewrite Ha. unfold checkFunc. rewrite Hc, Hd.
        destruct (_beforeSendTx d h "checkPowDone" (Some r) b). reflexivity.
      - injection Ha as Ha. subst upq. unfold checkFunc. rewrite Hc, Hd.
        destruct (_beforeSendTx d h "checkPowDone" (Some r) b). reflexivity. }
    rewrite E, fst_after, snd_after. split.
    + rewrite calls_app.
      destruct (beforeSendTx_calls d h "checkPowDone" (Some r) b) as [-> _].
      destruct (beforeCheckPow h); reflexivity.
    + intros Hs Hok. unfold _beforeSendTx, sendTx_arg, sendTxFunc in *.
      destruct (beforeSendTx h) as [hook|].
      * destruct (hook b (Some r)) as [arg|]; [| discriminate].
        injection Hs as Hs. rewrite Hs. simpl. now rewrite Hok.
      * simpl. now rewrite Hok.
  - intros u api blk result Hd.
    unfold AccountBlock.autoSetNonce_resume. simpl. rewrite Hd. reflexivity.
Qed.

Lemma falsy_difficulty_skips_pow_witness :
  calls is_pow
    (fst (sendPowTx (node (Some "")) demoAccount noHooks "asyncSendTx" ["vite_cd"])) = 0 /\
  snd (sendPowTx (node (Some "")) demoAccount noHooks "asyncSendTx" ["vite_cd"])
    = Result "finish"
        (Some {| cpr_requiredQuota := Some "21000"; cpr_difficulty := Some "";
                 cpr_qc := Some "1"; cpr_isCongestion := false |})
        demoBlock.
Proof.
  destruct (proj1 falsy_difficulty_skips_pow (node (Some "")) demoAccount noHooks
              "asyncSendTx" ["vite_cd"] demoBlock true
              {| cpr_requiredQuota := Some "21000"; cpr_difficulty := Some "";
                 cpr_qc := Some "1"; cpr_isCongestion := false |}
              eq_refl eq_refl eq_refl eq_refl) as [Hpow Hfin].
  split.
  - exact Hpow.
  - apply Hfin; reflexivity.
Defined.

(** *** C4 *)

Ltac in_trace H :=
  simpl in H;
  repeat match type of H with
         | _ \/ _ => destruct H as [H | H]
         | False => contradiction
         end;
  try discriminate H.

Lemma rejected_in_beforeSendTx (d : Deps) (h : Hooks) (lc : string)
  (r : option CheckPowResult) (b : Block) (stage : string) :
  In (rejected stage) (fst (_beforeSendTx d h lc r b)) ->
  stage = "beforeSendTx" /\
  _beforeSendTx d h lc r b = ([rejected "beforeSendTx"], Result lc r b).
Proof.
  unfold _beforeSendTx, sendTxFunc, rejected.
  destruct (beforeSendTx h) as [hook|]; [| intros H; in_trace H].
  destruct (hook b r) as [[[|]|]|]; intros H; in_trace H.
  injection H as <-. split; reflexivity.
Qed.

Lemma rejected_in_beforeSignTx (d : Deps) (this : AccountClass) (h : Hooks)
  (lc : string) (r : option CheckPowResult) (b : Block) (stage : string) :
  In (rejected stage) (fst (_beforeSignTx d this h lc r b)) ->
  (stage = "beforeSignTx" /\
   _beforeSignTx d this h lc r b = ([rejected "beforeSignTx"], Result lc r b)) \/
  (stage = "beforeSendTx" /\
   calls is_send (fst (_beforeSignTx d this h lc r b)) = 0 /\
   exists b', snd (_beforeSignTx d this h lc r b) = Result "signDone" r b').
Proof.
  assert (Hsign : In (rejected stage) (fst (signTx d this h lc r b false)) ->
     stage = "beforeSendTx" /\
     calls is_send (fst (signTx d this h lc r b false)) = 0 /\
     exists b', snd (signTx d this h lc r b false) = Result "signDone" r b').
  { unfold signTx.
    destruct (signAccountBlock d this b) as [signed|t]; [| intros H; in_trace H].
    rewrite fst_after, snd_after. intros H.
    destruct H as [H | H]; [discriminate H |].
    apply rejected_in_beforeSendTx in H. destruct H as [-> E].
    rewrite E. split; [reflexivity |]. split; [reflexivity |].
    now exists signed. }
  unfold _beforeSignTx.
  destruct (beforeSignTx h) as [hook|]; [| intros H; right; now apply Hsign].
  destruct (hook b r) as [[[|]|]|].
  - intros H. left. unfold signTx, rejected in *. in_trace H.
    injection H as <-. split; reflexivity.
  - rewrite fst_after, snd_after. intros H.
    destruct H as [H | H]; [discriminate H |].
    right. destruct (Hsign H) as (-> & Hs & b' & Hb).
    split; [reflexivity |]. split; [| now exists b'].
    change (calls is_send (Ev_hook "beforeSignTx" (CallNext (Some false))
                           :: fst (signTx d this h lc r b false)) = 0).
    exact Hs.
  - rewrite fst_after, snd_after. intros H.
    destruct H as [H | H]; [discriminate H |].
    right. destruct (Hsign H) as (-> & Hs & b' & Hb).
    split; [reflexivity |]. split; [| now exists b'].
    change (calls is_send (Ev_hook "beforeSignTx" (CallNext None)
                           :: fst (signTx d this h lc r b false)) = 0).
    exact Hs.
  - intros H. in_trace H.
Qed.

Lemma short_circuit_after (d : Deps) (stage : string) (evs : list Event) (run : Run) :
  calls is_send evs = 0 -> calls is_sign evs = 0 ->
  short_circuit d stage run -> short_circuit d stage (after evs run).
Proof.
  intros Hsend Hsign (Hs & lc & r & b & Hr & Hcase).
  unfold short_circuit. rewrite fst_after, snd_after, calls_app, Hsend, Hs.
  split; [reflexivity |]. exists lc, r, b. split; [exact Hr |].
  destruct Hcase as [H | [(H1 & H2 & H3 & b0 & H4 & H5) | H]]; auto.
  right; left. repeat split; auto.
  - now rewrite calls_app, Hsign, H3.
  - exists b0. split; [| exact H5]. apply in_or_app. now right.
Qed.

Lemma rejected_in_powFunc (d : Deps) (this : AccountClass) (h : Hooks)
  (r : CheckPowResult) (b : Block) (stage : string) :
  In (rejected stage) (fst (powFunc d this h "checkPowDone" r b false)) ->
  short_circuit d stage (powFunc d this h "checkPowDone" r b false).
Proof.
  unfold powFunc.
  destruct (builtinTxBlock_pow d b (cpr_difficulty r)) as [m|t] eqn:Hpow;
    [| intros H; in_trace H].
  rewrite fst_after. intros H. destruct H as [H | H]; [discriminate H |].
  apply rejected_in_beforeSignTx in H.
  destruct H as [[-> E] | (-> & Hs & b' & Hb)].
  - rewrite E. split; [reflexivity |].
    exists "powDone", r, m. split; [reflexivity |].
    right; left. repeat split.
    exists b. split; [now left | exact Hpow].
  - apply short_circuit_after; try reflexivity.
    split; [exact Hs |].
    exists "signDone", r, b'. split; [exact Hb |]. right; right. auto.
Qed.

Lemma rejected_in_beforePow (d : Deps) (this : AccountClass) (h : Hooks)
  (r : CheckPowResult) (b : Block) (stage : string) :
  In (rejected stage) (fst (_beforePow d this h "checkPowDone" r b)) ->
  short_circuit d stage (_beforePow d this h "checkPowDone" r b).
Proof.
  unfold _beforePow.
  destruct (beforePow h) as [hook|]; [| apply rejected_in_powFunc].
  destruct (hook b (Some r)) as [[[|]|]|].
  - intros H. unfold powFunc, rejected in *. in_trace H. injection H as <-.
    split; [reflexivity |].
    exists "checkPowDone", r, b. split; [reflexivity |]. left. auto.
  - rewrite fst_after. intros H. destruct H as [H | H]; [discriminate H |].
    apply short_circuit_after; try reflexivity. now apply rejected_in_powFunc.
  - rewrite fst_after. intros H. destruct H as [H | H]; [discriminate H |].
    apply short_circuit_after; try reflexivity. now apply rejected_in_powFunc.
  - intros H. in_trace H.
Qed.

Lemma rejected_in_checkFunc (d : Deps) (this : AccountClass) (h : Hooks)
  (b : Block) (upq : bool) (stage : string) :
  In (rejected stage) (fst (checkFunc d this h b upq)) ->
  short_circuit d stage (checkFunc d this h b upq).
Proof.
  unfold checkFunc.
  destruct (calcPoWDifficulty d (calcArgs b upq)) as [r|t]; [| intros H; in_trace H].
  rewrite fst_after. intros H. destruct H as [H | H]; [discriminate H |].
  apply short_circuit_after; try reflexivity.
  destruct (negb (truthy (cpr_difficulty r))).
  - apply rejected_in_beforeSendTx in H. destruct H as [-> E]. rewrite E.
    split; [reflexivity |].
    exists "checkPowDone", r, b. split; [reflexivity |]. right; right. auto.
  - now apply rejected_in_beforePow.
Qed.

(** C4 (as stated, refuted): a [beforeCheckPow] hook that invokes its
    continuation with [true] does not stop the pipeline; the argument is
    taken as [usePledgeQuota], the block is submitted and the result is
    'finish'. *)
Lemma beforeCheckPow_true_still_submits :
  sendPowTx (node None) demoAccount
    {| beforeCheckPow := Some (fun _ => CallNext (Some true)); beforePow := None;
       beforeSignTx := None; beforeSendTx := None |}
    "asyncSendTx" ["vite_cd"; "100"]
  = ([Ev_getBlock "asyncSendTx" ["vite_cd"; "100"];
      Ev_hook "beforeCheckPow" (CallNext (Some true));
      Ev_calcPoWDifficulty (calcArgs demoBlock true);
      Ev_send demoBlock],
     Result "finish"
       (Some {| cpr_requiredQuota := Some "21000"; cpr_difficulty := None;
                cpr_qc := Some "1"; cpr_isCongestion := false |})
       demoBlock).
Proof. reflexivity. Qed.

(** C4 (amended): when a [beforePow], [beforeSignTx] or [beforeSendTx]
    hook invokes its continuation with the reject signal, the pipeline
    returns [{lifeCycle, checkPowResult, accountBlock}] with the lifeCycle
    of the last completed stage and never submits.  For [beforeSignTx] the
    lifeCycle is 'powDone', signAccountBlock was not called and the block
    is the one the nonce solver returned.  ([beforeCheckPow]'s continuation
    takes [usePledgeQuota], not a reject signal.) *)
Theorem reject_short_circuits (d : Deps) (this : AccountClass) (h : Hooks)
  (methodName : string) (params : list string) (stage : string) :
  stage <> "beforeCheckPow" ->
  In (rejected stage) (fst (sendPowTx d this h methodName params)) ->
  short_circuit d stage (sendPowTx d this h methodName params).
Proof.
  intros Hstage. unfold sendPowTx.
  destruct (getBlock d methodName params) as [b|t]; [| intros H; in_trace H].
  rewrite fst_after. intros H. destruct H as [H | H]; [discriminate H |].
  apply short_circuit_after; try reflexivity.
  destruct (beforeCheckPow h) as [hook|]; [| now apply rejected_in_checkFunc].
  destruct (hook b) as [arg|] eqn:Hhook; [| in_trace H].
  rewrite fst_after in H. destruct H as [H | H].
  - unfold rejected in H. injection H as H _. now elim Hstage.
  - apply short_circuit_after; try reflexivity. now apply rejected_in_checkFunc.
Qed.

Lemma reject_short_circuits_witness :
  short_circuit (node (Some "67108864")) "beforeSignTx"
    (sendPowTx (node (Some "67108864")) demoAccount
       {| beforeCheckPow := None; beforePow := None;
          beforeSignTx := Some rejecting; beforeSendTx := None |}
       "asyncSendTx" ["vite_cd"; "100"]).
Proof.
  apply reject_short_circuits.
  - discriminate.
  - simpl. right; right; right. left. reflexivity.
Defined.

(** The run of the witness, spelled out: no signature on the returned
    block. *)
Lemma reject_before_sign_example :
  snd (sendPowTx (node (Some "67108864")) demoAccount
         {| beforeCheckPow := None; beforePow := None;
            beforeSignTx := Some rejecting; beforeSendTx := None |}
         "asyncSendTx" ["vite_cd"; "100"])
    = Result "powDone"
        (Some {| cpr_requiredQuota := Some "21000";
                 cpr_difficulty := Some "67108864";
                 cpr_qc := Some "1"; cpr_isCongestion := false |})
        (mined demoBlock (Some "67108864")) /\
  signature (mined demoBlock (Some "67108864")) = None.
Proof. split; reflexivity. Qed.

End PipelineFacts.

(* ================================================================== *)
(** ** Properties of the polling loops *)
(* ================================================================== *)

Module LoopFacts.
Import Account AccountExamples.

(** *** C8 *)

Lemma receive_oldest (a : AccountClass) (ap upq : option bool)
  (b : OnroadBlock) (rest : Ledger) :
  _receive a ap upq all_ok (b :: rest)
    = (rest, [Ev_getOnroadBlocks 0 1; Ev_submit (_sendRawTx a (ob_hash b) ap upq)]).
Proof.
  unfold _receive. simpl. now rewrite String.eqb_refl.
Qed.

Lemma receive_unsuccessful (a : AccountClass) (ap upq : option bool)
  (net : Net) (l : Ledger) :
  fetch_ok net && build_ok net && accepted net = false ->
  fst (_receive a ap upq net l) = l.
Proof.
  unfold _receive. intros H.
  destruct (fetch_ok net); [| reflexivity].
  destruct (getOnroadBlocks l 0 1); [reflexivity |].
  destruct (build_ok net); [| reflexivity].
  simpl in H. now rewrite H.
Qed.

(** C8 (as stated, refuted): one block is pending, nothing arrives, the
    ledger does not accept the response block; after the tick the block is
    still pending. *)
Lemma refused_tick_leaves_block_pending :
  ticks demoAccount None None [refused] [pendingA]
    = ([pendingA],
       [[Ev_getOnroadBlocks 0 1; Ev_submit (SendTx "a1" "ab")]]).
Proof. reflexivity. Qed.

(** C8 (amended): K successive ticks in each of which the fetch, the
    construction and the submission of the response block succeed drain a
    queue of K pending blocks; tick i queries page 0 of size 1 and submits
    one response block for the i-th oldest block.  A tick that finds no
    pending block submits nothing.  A tick in which one of the three steps
    fails leaves the queue as it was. *)
Theorem ticks_drain_accepted_queue (a : AccountClass) (ap upq : option bool) :
  (forall l : Ledger,
     ticks a ap upq (repeat all_ok (List.length l)) l
       = ([], map (fun b => [Ev_getOnroadBlocks 0 1;
                             Ev_submit (_sendRawTx a (ob_hash b) ap upq)]) l)) /\
  (forall net, _receive a ap upq net [] = ([], [Ev_getOnroadBlocks 0 1])) /\
  (forall net l, fetch_ok net && build_ok net && accepted net = false ->
     fst (_receive a ap upq net l) = l).
Proof.
  split; [| split].
  - induction l as [|b rest IH].
    + reflexivity.
    + cbn [List.length repeat ticks map]. rewrite receive_oldest, IH. reflexivity.
  - intros net. unfold _receive. destruct (fetch_ok net); reflexivity.
  - apply receive_unsuccessful.
Qed.

Lemma ticks_drain_accepted_queue_witness :
  ticks demoAccount (Some true) None [all_ok; all_ok] [pendingA; pendingB]
    = ([],
       [[Ev_getOnroadBlocks 0 1; Ev_submit (SendAutoPowTx "a1" "ab" true)];
        [Ev_getOnroadBlocks 0 1; Ev_submit (SendAutoPowTx "b2" "ab" true)]]) /\
  fst (_receive demoAccount None None refused [pendingA; pendingB])
    = [pendingA; pendingB].
Proof.
  destruct (ticks_drain_accepted_queue demoAccount (Some true) None) as (Hd & _ & _).
  destruct (ticks_drain_accepted_queue demoAccount None None) as (_ & _ & Hf).
  split.
  - exact (Hd [pendingA; pendingB]).
  - apply (Hf refused [pendingA; pendingB]). reflexivity.
Defined.

(** *** C10 *)

Lemma step_balance_inv (s : Sched) (e : LoopEvent) :
  is_freeze e = false -> balance_inv s -> balance_inv (step s e).
Proof.
  destruct s as [[ad pk ap uq lk ar] bq bt rq rt].
  unfold balance_inv, balanceLoops.
  destruct e as [| | | |[[|]|]| | |]; intros Hf H; try discriminate Hf;
    destruct lk, ar, bq, bt, rq, rt; cbn in *; lia.
Qed.

Lemma step_receive_inv (s : Sched) (e : LoopEvent) :
  stops_receive e = false -> receive_inv s -> receive_inv (step s e).
Proof.
  destruct s as [[ad pk ap uq lk ar] bq bt rq rt].
  unfold receive_inv, receiveLoops.
  destruct e as [| | | |[[|]|]| | |]; intros Hf H; try discriminate Hf;
    destruct lk, ar, bq, bt, rq, rt; cbn in *; lia.
Qed.

Lemma run_inv (P : Sched -> Prop) (skip : LoopEvent -> bool) :
  (forall s e, skip e = false -> P s -> P (step s e)) ->
  forall es s, forallb (fun e => negb (skip e)) es = true -> P s -> P (run es s).
Proof.
  intros Hstep. unfold run.
  induction es as [|e es IH]; intros s Hall Hs; simpl in *.
  - exact Hs.
  - apply andb_prop in Hall. destruct Hall as [He Hes].
    apply IH; [exact Hes |]. apply Hstep; [| exact Hs].
    now destruct (skip e).
Qed.

(** C10 (as stated, refuted): activate, freeze, activate starts a second
    balance loop while the first still awaits its request; both survive
    their next timers.  The same holds for autoReceiveTx,
    stopAutoReceiveTx, autoReceiveTx. *)
Lemma restart_doubles_loops :
  balanceLoops (run [Activate; Freeze; Activate] (fresh demoAccount)) = 2 /\
  balanceRequests
    (run [Activate; Freeze; Activate;
          BalanceSettled None; BalanceSettled None;
          BalanceTimeout; BalanceTimeout] (fresh demoAccount)) = 2 /\
  receiveLoops
    (run [AutoReceiveTx; StopAutoReceiveTx; AutoReceiveTx] (fresh demoAccount)) = 2 /\
  receiveRequests
    (run [AutoReceiveTx; StopAutoReceiveTx; AutoReceiveTx;
          ReceiveSettled; ReceiveSettled;
          ReceiveTimeout; ReceiveTimeout] (fresh demoAccount)) = 2.
Proof. repeat split. Qed.

(** C10 (amended): [activate] on an account whose balance loop is on
    ([_lock] false) and [autoReceiveTx] on an account whose [_autoReceive]
    is true change nothing.  Starting from a new account, at most one
    balance loop is alive as long as [freeze] is not called, and at most
    one receive loop is alive as long as [_autoReceive] is not set back to
    false (by [stopAutoReceiveTx], directly or from the balance loop). *)
Theorem one_loop_until_stopped :
  (forall s, _lock (this s) = false -> activate s = s) /\
  (forall s, _autoReceive (this s) = true -> autoReceiveTx s = s) /\
  (forall a es, forallb (fun e => negb (is_freeze e)) es = true ->
     balanceLoops (run es (fresh a)) <= 1) /\
  (forall a es, forallb (fun e => negb (stops_receive e)) es = true ->
     receiveLoops (run es (fresh a)) <= 1).
Proof.
  split; [| split; [| split]].
  - intros s H. unfold activate. now rewrite H.
  - intros s H. unfold autoReceiveTx. now rewrite H.
  - intros a es Hes.
    assert (H : balance_inv (run es (fresh a))).
    { apply (run_inv balance_inv is_freeze step_balance_inv); [exact Hes |].
      reflexivity. }
    unfold balance_inv in H. rewrite H.
    destruct (_lock (this (run es (fresh a)))); lia.
  - intros a es Hes.
    assert (H : receive_inv (run es (fresh a))).
    { apply (run_inv receive_inv stops_receive step_receive_inv); [exact Hes |].
      reflexivity. }
    unfold receive_inv in H. rewrite H.
    destruct (_autoReceive (this (run es (fresh a)))); lia.
Qed.

Lemma one_loop_until_stopped_witness :
  balanceLoops
    (run [Activate; BalanceSettled (Some true); Activate; BalanceTimeout;
          ReceiveSettled; AutoReceiveTx; ReceiveTimeout]
       (fresh demoAccount)) <= 1 /\
  receiveLoops
    (run [Activate; BalanceSettled (Some true); Activate; BalanceTimeout;
          ReceiveSettled; AutoReceiveTx; ReceiveTimeout]
       (fresh demoAccount)) <= 1.
Proof.
  destruct one_loop_until_stopped as (_ & _ & Hb & Hr).
  split.
  - apply Hb. reflexivity.
  - apply Hr. reflexivity.
Defined.

End LoopFacts.

(* ================================================================== *)
(** ** Further properties of accountBlock.ts *)
(* ================================================================== *)

Module AccountBlockMore.
Import AccountBlock Examples Frames.

(** X1: getDifficulty and autoSetNonce stop at the [accountBlock] getter:
    for every stack depth they end in the stack error without having
    issued a request, and autoSetNonce leaves the instance as it was. *)
Theorem autoSetNonce_never_requests (depth : nat) (u : Imports) (api : ViteAPI)
  (this : AccountBlockClass) :
  getDifficulty depth u api this = ([], Throw ThrowRangeError) /\
  autoSetNonce depth u api this = ([], this, Throw ThrowRangeError).
Proof.
  assert (H : getDifficulty depth u api this = ([], Throw ThrowRangeError)).
  { unfold getDifficulty. now rewrite AccountBlockFacts.get_accountBlock_none. }
  split; [exact H |]. unfold autoSetNonce. now rewrite H.
Qed.

Lemma strict_neq_eq (a : JsString) (b : string) :
  strict_neq a b = false -> a = Some b.
Proof.
  unfold strict_neq. destruct a as [s|]; [| discriminate].
  destruct (String.eqb_spec s b) as [->|]; [reflexivity | discriminate].
Qed.

Lemma strict_neq_refl (b : string) : strict_neq (Some b) b = false.
Proof. simpl. now rewrite String.eqb_refl. Qed.

Lemma same_except_publicKey_refl (a : AccountBlockClass) : same_except_publicKey a a.
Proof. unfold same_except_publicKey. repeat split. Qed.

Lemma setPublicKey_same_except (u : Imports) (this : AccountBlockClass) (pub : Key) :
  same_except_publicKey this (fst (setPublicKey u this pub)).
Proof.
  unfold setPublicKey.
  destruct (checkParams_key u "publicKey" pub); [apply same_except_publicKey_refl |].
  destruct (strict_neq (address this) (getAddressFromPublicKey u pub));
    [apply same_except_publicKey_refl |].
  unfold same_except_publicKey. simpl. repeat split.
Qed.

(** X2: setPublicKey succeeds exactly when the key passes the parameter
    check and its address is the block's address; it then changes no field
    but publicKey, and when it fails it changes nothing at all. *)
Theorem setPublicKey_frame (u : Imports) (this : AccountBlockClass) (pub : Key) :
  (snd (setPublicKey u this pub) = Return tt <->
     checkParams_key u "publicKey" pub = None /\
     address this = Some (getAddressFromPublicKey u pub)) /\
  same_except_publicKey this (fst (setPublicKey u this pub)) /\
  (snd (setPublicKey u this pub) <> Return tt -> fst (setPublicKey u this pub) = this).
Proof.
  unfold setPublicKey.
  destruct (checkParams_key u "publicKey" pub) as [err|].
  - repeat split; try apply same_except_publicKey_refl; try discriminate.
    intros [H _]. discriminate H.
  - destruct (strict_neq (address this) (getAddressFromPublicKey u pub)) eqn:E.
    + repeat split; try discriminate.
      intros [_ H]. rewrite H, strict_neq_refl in E. discriminate E.
    + apply strict_neq_eq in E. simpl. repeat split; auto.
      intros H. now elim H.
Qed.

Lemma setPublicKey_frame_witness :
  snd (setPublicKey demoImports demoInstance (KHex "ab")) = Return tt /\
  fst (setPublicKey demoImports demoInstance (KHex "cd")) = demoInstance.
Proof.
  destruct (setPublicKey_frame demoImports demoInstance (KHex "ab")) as (Hiff & _ & _).
  destruct (setPublicKey_frame demoImports demoInstance (KHex "cd")) as (_ & _ & Hfail).
  split.
  - apply Hiff. split; reflexivity.
  - apply Hfail. discriminate.
Defined.

(** X3: whatever the key, sign changes no field of the block but
    publicKey, and it changes publicKey only for a key that passed the
    parameter check and whose address is the block's address. *)
Theorem sign_frame (depth : nat) (u : Imports) (this : AccountBlockClass)
  (privateKey : Key) :
  same_except_publicKey this (fst (sign depth u this privateKey)) /\
  (fst (sign depth u this privateKey) <> this ->
     checkParams_key u "privateKey" privateKey = None /\
     address this
       = Some (fst (createAddressByPrivateKey u (toBuffer u privateKey)))).
Proof.
  unfold sign.
  destruct (checkParams_key u "privateKey" privateKey) as [err|].
  { split; [apply same_except_publicKey_refl | intros H; now elim H]. }
  destruct (createAddressByPrivateKey u (toBuffer u privateKey)) as [addr pub].
  destruct (strict_neq (address this) addr) eqn:E.
  { split; [apply same_except_publicKey_refl | intros H; now elim H]. }
  apply strict_neq_eq in E.
  pose proof (setPublicKey_same_except u this (KBuffer pub)) as Hsame.
  destruct (setPublicKey u this (KBuffer pub)) as [this1 [done|t]]; simpl in *.
  - rewrite AccountBlockFacts.get_hash_none. simpl.
    split; [exact Hsame | intros _; now split].
  - split; [exact Hsame | intros _; now split].
Qed.

Lemma sign_frame_witness :
  checkParams_key demoImports "privateKey" (KHex "ab") = None /\
  address demoInstance
    = Some (fst (createAddressByPrivateKey demoImports (toBuffer demoImports (KHex "ab")))).
Proof.
  apply (proj2 (sign_frame 64 demoImports demoInstance (KHex "ab"))).
  intros H. apply (f_equal publicKey) in H. vm_compute in H. discriminate H.
Defined.

Lemma or_else_nonempty (v : JsString) (d : string) : d <> "" -> or_else v d <> "".
Proof.
  intros Hd. unfold or_else. destruct v as [s|]; [| exact Hd].
  simpl. destruct (String.eqb_spec s ""); simpl; auto.
Qed.

Lemma toString_ofString (n : N) : BigNumber.ofString (BigNumber.toString n) = Some n.
Proof.
  unfold BigNumber.ofString, BigNumber.toString.
  rewrite DecimalString.NilEmpty.usu. simpl.
  now rewrite DecimalN.Unsigned.of_to.
Qed.

Lemma decimal_text_read (s : string) :
  decimal_text s = true -> exists n, BigNumber.ofString s = Some n.
Proof.
  unfold BigNumber.ofString.
  assert (H : decimal_text s = true ->
              exists u, NilEmpty.uint_of_string s = Some u).
  { induction s as [|a s IH]; simpl.
    - intros _. now exists Decimal.Nil.
    - intros Hd. apply andb_true_iff in Hd. destruct Hd as [Ha Hs].
      destruct (IH Hs) as [u ->].
      destruct a as [[] [] [] [] [] [] [] []]; try discriminate Ha;
        simpl; eexists; reflexivity. }
  intros Hd. destruct (H Hd) as [u ->]. simpl. now eexists.
Qed.

(** X4: for every chain tip whose height is absent, empty or made of
    decimal digits, getHeight produces a result; its height is the
    canonical decimal text of a number that is at least 1 -- 1 when the
    height is absent or empty, and otherwise one more than the number the
    tip's height denotes -- read back by bn.js as that number, and its
    previousHash is not empty. *)
Theorem getHeight_of_positive (prev : option Tip) :
  decimal_text (tip_height_text prev) = true ->
  exists n p,
    getHeight_of prev = Some (BigNumber.toString n, p) /\
    (1 <= n)%N /\
    (tip_height_text prev = "" -> n = 1%N) /\
    (forall k, tip_height_text prev <> "" ->
       BigNumber.ofString (tip_height_text prev) = Some k -> n = (k + 1)%N) /\
    BigNumber.ofString (BigNumber.toString n) = Some n /\
    p <> "".
Proof.
  intros Hd. unfold getHeight_of. fold (tip_height_text prev).
  set (previousHash := match prev with
                       | Some t => or_else (tip_hash t) Default_Hash
                       | None => Default_Hash end).
  assert (Hp : previousHash <> "").
  { unfold previousHash. destruct prev as [t|]; [| discriminate].
    apply or_else_nonempty. discriminate. }
  destruct (decimal_text_read _ Hd) as [k Hk]. rewrite Hk.
  destruct (truthy (Some (tip_height_text prev))) eqn:Ht.
  - exists (BigNumber.add k 1), previousHash. unfold BigNumber.add.
    split; [reflexivity |]. split; [lia |]. split.
    { intros He. rewrite He in Ht. discriminate Ht. }
    split.
    { intros k' _ Hk'. congruence. }
    split; [apply toString_ofString | exact Hp].
  - exists 1%N, previousHash.
    split; [reflexivity |]. split; [lia |]. split; [reflexivity |]. split.
    { intros k' Hne _. exfalso. apply Hne.
      unfold truthy in Ht. simpl in Ht.
      destruct (String.eqb_spec (tip_height_text prev) ""); [assumption | discriminate]. }
    split; [apply toString_ofString | exact Hp].
Qed.

Lemma getHeight_of_positive_witness :
  exists n p,
    getHeight_of (Some {| tip_height := Some "007"; tip_hash := Some "ab" |})
      = Some (BigNumber.toString n, p) /\
    n = 8%N /\ p <> "".
Proof.
  destruct (getHeight_of_positive
              (Some {| tip_height := Some "007"; tip_hash := Some "ab" |})
              eq_refl) as (n & p & E & _ & _ & Hk & _ & Hp).
  exists n, p. split; [exact E |]. split; [| exact Hp].
  apply (Hk 7%N); [discriminate | reflexivity].
Defined.

(** X5: once the difficulty assessment has returned, autoSetNonce stores
    the difficulty in every case, issues at most one request, and changes
    nonce only when it succeeds: a failing nonce request leaves the block
    with the new difficulty and the old nonce. *)
Theorem autoSetNonce_resume_effects (u : Imports) (api : ViteAPI)
  (this : AccountBlockClass) (result : PoWDifficultyResult) :
  let '(reqs, this', c) := autoSetNonce_resume u api this result in
  difficulty this' = pow_difficulty result /\
  List.length reqs <= 1 /\
  (forall t, c = Throw t -> nonce this' = nonce this) /\
  (forall r, c = Return r -> r = (pow_difficulty result, nonce this')) /\
  (forall dif hash, In (Req_getPoWNonce dif hash) reqs ->
     dif = pow_difficulty result /\ truthy dif = true).
Proof.
  unfold autoSetNonce_resume. simpl.
  destruct (truthy (pow_difficulty result)) eqn:Ht.
  - unfold getNonce. simpl.
    destruct (checkParams_nonce u (pow_difficulty result) (previousHash this));
      [| destruct (util_getPoWNonce api _ _) as [n|t]];
      simpl; repeat split; simpl in *; try lia; try discriminate;
      try contradiction; intros;
      repeat match goal with
             | H : Return _ = Return _ |- _ => injection H as H; subst
             | H : _ \/ False |- _ => destruct H as [H|[]]
             | H : Req_getPoWNonce _ _ = Req_getPoWNonce _ _ |- _ =>
                 injection H as H ?; subst
             end; auto.
  - simpl. repeat split; simpl in *; try lia; try discriminate;
      try contradiction; intros.
    match goal with H : Return _ = Return _ |- _ => now injection H as <- end.
Qed.

End AccountBlockMore.

(* ================================================================== *)
(** ** Further properties of the client's sendRawTx *)
(* ================================================================== *)

Module ClientMore.
Import Client ClientExamples.

(** X6: sendRawTx hands at most one block to the ledger, and a block it
    hands over is always the one signAccountBlock returned for the
    caller's block and key after the parameter check passed: an unchecked
    or unsigned block is never submitted. *)
Theorem sendRawTx_submits_only_signed (Block : Type) (d : Deps Block)
  (accountBlock : Block) (privateKey : Key) :
  List.length (fst (sendRawTx d accountBlock privateKey)) <= 1 /\
  (forall b, In b (fst (sendRawTx d accountBlock privateKey)) ->
     checkParams d accountBlock privateKey = None /\
     signAccountBlock d accountBlock privateKey = inr b).
Proof.
  unfold sendRawTx.
  destruct (checkParams d accountBlock privateKey) as [err|].
  - simpl. split; [lia | intros b []].
  - destruct (signAccountBlock d accountBlock privateKey) as [err|signed].
    + simpl. split; [lia | intros b []].
    + simpl. split; [lia |]. intros b [<- | []]. split; reflexivity.
Qed.

(** X7: the promise of sendRawTx resolves exactly when the check passes,
    signing succeeds and the ledger accepts the signed block; and a
    rejection carries an accountBlock exactly when the ledger was called,
    so a caller can tell a refusal by the ledger from a local failure. *)
Theorem sendRawTx_outcome (Block : Type) (d : Deps Block)
  (accountBlock : Block) (privateKey : Key) :
  (snd (sendRawTx d accountBlock privateKey) = Resolved Block <->
     exists signed ack,
       checkParams d accountBlock privateKey = None /\
       signAccountBlock d accountBlock privateKey = inr signed /\
       tx_sendRawTx d signed = inr ack) /\
  (forall r, snd (sendRawTx d accountBlock privateKey) = Rejected r ->
     (Client.accountBlock r = None <-> fst (sendRawTx d accountBlock privateKey) = []) /\
     (forall b, Client.accountBlock r = Some b ->
                fst (sendRawTx d accountBlock privateKey) = [b])).
Proof.
  unfold sendRawTx.
  destruct (checkParams d accountBlock privateKey) as [err|].
  { simpl. split.
    - split; [discriminate | intros (s & a & H & _); discriminate H].
    - intros r H. injection H as <-. simpl. split; [tauto | discriminate]. }
  destruct (signAccountBlock d accountBlock privateKey) as [err|signed].
  { simpl. split.
    - split; [discriminate | intros (s & a & _ & H & _); discriminate H].
    - intros r H. injection H as <-. simpl. split; [tauto | discriminate]. }
  simpl. destruct (tx_sendRawTx d signed) as [err|ack] eqn:Htx.
  - split.
    + split; [discriminate |].
      intros (s & a & _ & Hs & Ha). injection Hs as <-. congruence.
    + intros r H. injection H as <-. simpl. split.
      * split; discriminate.
      * intros b Hb. now injection Hb as <-.
  - split.
    + split; [| reflexivity]. intros _. now exists signed, ack.
    + intros r H. discriminate H.
Qed.

End ClientMore.

(* ================================================================== *)
(** ** Properties of getBalance and getTxList *)
(* ================================================================== *)

Module QueryFacts.
Import ClientQueries QueryNotions.

Ltac unpack :=
  repeat match goal with
         | H : _ /\ _ |- _ => destruct H
         | H : exists _, _ |- _ => destruct H
         | H : _ \/ _ |- _ => destruct H
         | H : inr _ = inr _ |- _ => injection H as H; try subst
         | H : Some _ = Some _ |- _ => injection H as H; try subst
         | H : _ :: _ = _ :: _ |- _ => injection H as ? H; try subst
         | H : Fulfilled _ = Fulfilled _ |- _ => injection H as H; try subst
         end.

(** X8: getBalance fulfils with a balance exactly when the batch answers
    with at least two entries, and then reads [balance] from the first
    and [onroad] from the second, ignoring any further entry; it fulfils
    with null exactly when the batch answers with a falsy value or with
    fewer than two entries. *)
Theorem getBalance_result (m : MethodNames) (d : Deps) (addr : string) :
  (forall b, snd (getBalance m d addr) = Fulfilled (Some b) <->
     checkParams_addr d addr = None /\
     exists d0 d1 more,
       batch d (balanceRequests m addr) = inr (Some (d0 :: d1 :: more)) /\
       b = {| balance := result d0; onroad := result d1 |}) /\
  (snd (getBalance m d addr) = Fulfilled None <->
     checkParams_addr d addr = None /\
     (batch d (balanceRequests m addr) = inr None \/
      exists data, batch d (balanceRequests m addr) = inr (Some data) /\
                   List.length data < 2)).
Proof.
  unfold getBalance. fold (balanceRequests m addr).
  destruct (checkParams_addr d addr) as [err|];
    [| simpl; destruct (batch d (balanceRequests m addr))
                as [err|[[|d0 [|d1 more]]|]]; simpl];
    (split; [intros b |]); (split; intros H); unpack; try discriminate;
    try (simpl in *; lia);
    try reflexivity.
  - split; [reflexivity |]. right. exists []. split; [reflexivity | simpl; lia].
  - split; [reflexivity |]. right. exists [d0]. split; [reflexivity | simpl; lia].
  - split; [reflexivity |]. now exists d0, d1, more.
  - split; [reflexivity |]. now left.
Qed.

(** X9: getBalance sends nothing when the address check fails, and
    otherwise one batch made of the account request followed by the
    onroad request, both for the given address; a failure of the check or
    of the batch is the rejection, unchanged. *)
Theorem getBalance_requests (m : MethodNames) (d : Deps) (addr : string) :
  (forall err, checkParams_addr d addr = Some err ->
     getBalance m d addr = ([], Rejected (WithError err))) /\
  (checkParams_addr d addr = None ->
     fst (getBalance m d addr) = [balanceRequests m addr] /\
     forall err, batch d (balanceRequests m addr) = inl err ->
                 snd (getBalance m d addr) = Rejected (WithError err)) /\
  (forall f, snd (getBalance m d addr) = Rejected f ->
     exists err, f = WithError err /\
       (checkParams_addr d addr = Some err \/
        batch d (balanceRequests m addr) = inl err)).
Proof.
  unfold getBalance. fold (balanceRequests m addr).
  destruct (checkParams_addr d addr) as [e|].
  - split; [| split].
    + intros err H. now injection H as <-.
    + discriminate.
    + simpl. intros f H. injection H as <-. exists e. split; [reflexivity | now left].
  - split; [| split].
    + discriminate.
    + intros _. split; [reflexivity |]. intros err H. simpl. now rewrite H.
    + simpl. intros f H.
      destruct (batch d (balanceRequests m addr)) as [err|[data|]].
      * injection H as <-. exists err. split; [reflexivity | now right].
      * destruct (Nat.ltb (List.length data) 2); [discriminate H |].
        destruct data as [|d0 [|d1 more]]; discriminate H.
      * discriminate H.
Qed.

Lemma getBalance_requests_witness :
  getBalance names queryNode "" =
    ([], Rejected (WithError {| code := "-32002"; message := "addr" |})) /\
  fst (getBalance names queryNode "vite_ab") = [balanceRequests names "vite_ab"].
Proof.
  destruct (getBalance_requests names queryNode "") as (Hbad & _ & _).
  destruct (getBalance_requests names queryNode "vite_ab") as (_ & Hok & _).
  split.
  - apply Hbad. reflexivity.
  - apply Hok. reflexivity.
Defined.

Lemma clamp_index (z : Z) : (if (0 <=? z)%Z then z else 0%Z) = Z.max 0 z.
Proof. destruct (Z.leb_spec 0 z); lia. Qed.

(** The requests of one [getTxList] batch. *)
Lemma getTxList_batch (m : MethodNames) (d : Deps) (a : TxListArgs) :
  checkParams_addr_index d (addr a) (index a) = None ->
  totalNum a <> Some 0%Z ->
  fst (getTxList m d a)
    = [pageRequest m a :: match totalNum a with
                          | None => [accountRequest m a]
                          | Some _ => []
                          end].
Proof.
  intros Hc Hz. unfold getTxList, pageRequest, accountRequest.
  rewrite Hc, clamp_index.
  destruct (totalNum a) as [[|p|p]|]; try reflexivity. now elim Hz.
Qed.

(** X10: getTxList asks the node for nothing when the total is given as
    0 and answers with the empty list; otherwise it sends one batch whose
    first request is the page request with the index given when that is
    not negative and with index 0 when it is negative, and a page size of
    50 unless one is given, followed by the account request only when no
    total is given. *)
Theorem getTxList_requests (m : MethodNames) (d : Deps) (a : TxListArgs) :
  checkParams_addr_index d (addr a) (index a) = None ->
  (totalNum a = Some 0%Z ->
     getTxList m d a = ([], Fulfilled {| tx_list := []; tx_totalNum := Some 0%Z |})) /\
  (totalNum a <> Some 0%Z ->
     exists i, ((0 <= index a)%Z -> i = index a) /\
               ((index a < 0)%Z -> i = 0%Z) /\
       fst (getTxList m d a)
         = [ {| methodName := ledger_getBlocksByAccAddr m;
                params := [PStr (addr a); PNum i;
                           PNum (match pageCount a with
                                 | Some p => p
                                 | None => 50%Z
                                 end)] |}
             :: match totalNum a with
                | None => [accountRequest m a]
                | Some _ => []
                end ]).
Proof.
  intros Hc. split.
  - intros Hz. unfold getTxList. now rewrite Hc, Hz.
  - intros Hz. exists (Z.max 0 (index a)).
    split; [lia |]. split; [lia |].
    now apply getTxList_batch.
Qed.

Lemma getTxList_requests_witness :
  getTxList names queryNode
    {| addr := "vite_ab"; index := 3; pageCount := None; totalNum := Some 0%Z |}
    = ([], Fulfilled {| tx_list := []; tx_totalNum := Some 0%Z |}) /\
  fst (getTxList names queryNode
         {| addr := "vite_ab"; index := (-4); pageCount := None; totalNum := None |})
    = [[ {| methodName := "ledger_getBlocksByAccAddr";
            params := [PStr "vite_ab"; PNum 0; PNum 50] |};
         {| methodName := "ledger_getAccountByAccAddr";
            params := [PStr "vite_ab"] |} ]].
Proof.
  split.
  - apply (proj1 (getTxList_requests names queryNode
                    {| addr := "vite_ab"; index := 3; pageCount := None;
                       totalNum := Some 0%Z |} eq_refl)).
    reflexivity.
  - destruct (proj2 (getTxList_requests names queryNode
                       {| addr := "vite_ab"; index := (-4); pageCount := None;
                          totalNum := None |} eq_refl)) as (i & _ & Hi & E).
    + discriminate.
    + rewrite E, Hi; [reflexivity | reflexivity].
Defined.

(** X11: when getTxList fulfils after a batch, its list is the array of
    the first answer (empty when that answer has no result) taken item by
    item in the same order, each item unchanged but for its txType; the
    total is the one the caller gave, or else the totalNumber of the
    second answer, 0 when that answer has no result. *)
Theorem getTxList_fulfilled (m : MethodNames) (d : Deps) (a : TxListArgs) (r : TxList) :
  ledger_getBlocksByAccAddr m <> ledger_getAccountByAccAddr m ->
  totalNum a <> Some 0%Z ->
  snd (getTxList m d a) = Fulfilled r ->
  exists data first items,
    batch d (pageRequest m a :: match totalNum a with
                                | None => [accountRequest m a]
                                | Some _ => []
                                end) = inr (Some data) /\
    nth_error data 0 = Some first /\
    result_or_empty first = Items items /\
    tx_list r = map (with_txType d) items /\
    map i_hash (tx_list r) = map i_hash items /\
    match totalNum a with
    | Some n => tx_totalNum r = Some n
    | None => exists second, nth_error data 1 = Some second /\
                             tx_totalNum r = totalNumber_or_zero second
    end.
Proof.
  intros Hne Hz.
  assert (Hb : (ledger_getBlocksByAccAddr m =? ledger_getAccountByAccAddr m) = false)
    by now apply String.eqb_neq.
  unfold getTxList.
  destruct (checkParams_addr_index d (addr a) (index a)); [discriminate |].
  rewrite clamp_index. fold (pageRequest m a). fold (accountRequest m a).
  assert (Hmap : forall items, map i_hash (map (with_txType d) items) = map i_hash items).
  { intros items. rewrite map_map. apply map_ext. reflexivity. }
  destruct (totalNum a) as [n|] eqn:Ht.
  - assert (E : match n with
                | 0%Z => ([] : list (list RPCrequest),
                          Fulfilled {| tx_list := []; tx_totalNum := Some 0%Z |})
                | _ => ([[pageRequest m a]],
                        match batch d [pageRequest m a] with
                        | inl err => Rejected (WithError err)
                        | inr None => Rejected TypeError
                        | inr (Some data) =>
                            match read_answers m data 0 [pageRequest m a] (Some n) Unassigned with
                            | None => Rejected TypeError
                            | Some (total, Items rawList) =>
                                Fulfilled {| tx_list := map (with_txType d) rawList;
                                             tx_totalNum := total |}
                            | Some (_, _) => Rejected TypeError
                            end
                        end)
                end
              = ([[pageRequest m a]],
                 match batch d [pageRequest m a] with
                 | inl err => Rejected (WithError err)
                 | inr None => Rejected TypeError
                 | inr (Some data) =>
                     match read_answers m data 0 [pageRequest m a] (Some n) Unassigned with
                     | None => Rejected TypeError
                     | Some (total, Items rawList) =>
                         Fulfilled {| tx_list := map (with_txType d) rawList;
                                      tx_totalNum := total |}
                     | Some (_, _) => Rejected TypeError
                     end
                 end)).
    { destruct n; [now elim Hz | reflexivity | reflexivity]. }
    rewrite E. clear E. simpl snd. rewrite Hb.
    destruct (batch d [pageRequest m a]) as [err|[[|first rest]|]]; try discriminate.
    destruct (result_or_empty first) as [|items|] eqn:Hr; try discriminate.
    intros H. injection H as <-. simpl.
    exists (first :: rest), first, items. repeat split; auto.
  - simpl snd. rewrite Hb, String.eqb_refl.
    destruct (batch d [pageRequest m a; accountRequest m a])
      as [err|[[|first [|second rest]]|]]; try discriminate.
    destruct (result_or_empty first) as [|items|] eqn:Hr; try discriminate.
    intros H. injection H as <-. simpl.
    exists (first :: second :: rest), first, items. repeat split; auto.
    now exists second.
Qed.

Lemma getTxList_fulfilled_witness :
  exists data first items,
    batch queryNode
      [pageRequest names {| addr := "vite_ab"; index := 0; pageCount := Some 2%Z;
                            totalNum := None |};
       accountRequest names {| addr := "vite_ab"; index := 0; pageCount := Some 2%Z;
                               totalNum := None |}] = inr (Some data) /\
    nth_error data 0 = Some first /\
    result_or_empty first = Items items /\
    [with_txType queryNode itemA; with_txType queryNode itemB]
      = map (with_txType queryNode) items /\
    ["a1"; "b2"] = map i_hash items /\
    exists second, nth_error data 1 = Some second /\
                   Some 7%Z = totalNumber_or_zero second.
Proof.
  apply (@getTxList_fulfilled names queryNode
           {| addr := "vite_ab"; index := 0; pageCount := Some 2%Z;
              totalNum := None |}
           {| tx_list := [with_txType queryNode itemA; with_txType queryNode itemB];
              tx_totalNum := Some 7%Z |}).
  - discriminate.
  - discriminate.
  - reflexivity.
Defined.

End QueryFacts.

(* ================================================================== *)
(** ** Properties of the client's method namespaces *)
(* ================================================================== *)

Module NamespaceFacts.
Import ClientNamespaces NamespaceNotions.

(** *** Objects *)

Section ObjectLemmas.
Variable V : Type.
Implicit Types (o : list (string * V)) (k : string) (v : V).

Lemma get_set_same o k v : get (set o k v) k = Some v.
Proof.
  induction o as [|[k' v'] rest IH]; simpl.
  - now rewrite String.eqb_refl.
  - destruct (String.eqb_spec k' k) as [->|Hne]; simpl.
    + now rewrite String.eqb_refl.
    + destruct (String.eqb_spec k' k); [contradiction | exact IH].
Qed.

Lemma get_set_other o k v k0 : k <> k0 -> get (set o k v) k0 = get o k0.
Proof.
  intros Hne. induction o as [|[k' v'] rest IH]; simpl.
  - destruct (String.eqb_spec k k0); [contradiction | reflexivity].
  - destruct (String.eqb_spec k' k) as [->|Hk]; simpl.
    + destruct (String.eqb_spec k k0); [contradiction | reflexivity].
    + destruct (String.eqb_spec k' k0); [reflexivity | exact IH].
Qed.

Lemma set_same_value o k v : get o k = Some v -> set o k v = o.
Proof.
  induction o as [|[k' v'] rest IH]; simpl; [discriminate |].
  destruct (String.eqb_spec k' k) as [->|Hk].
  - intros H. now injection H as ->.
  - intros H. now rewrite IH.
Qed.

End ObjectLemmas.

(** *** One turn of the loop *)

Lemma member_name_wallet (ns : string) : member_name ns = "wallet" <-> ns = "wallet".
Proof.
  unfold member_name. destruct (String.eqb_spec ns "subscribe") as [->|Hne].
  - split; discriminate.
  - tauto.
Qed.

(** A turn for an entry touches no member but the one named after it. *)
Lemma install_other (ipc : bool) (o : list (string * Member))
  (e : string * list (string * string)) (k : string) :
  member_name (fst e) <> k -> get (install ipc o e) k = get o k.
Proof.
  intros Hne. unfold install.
  destruct (negb ipc && (fst e =? "wallet")) eqn:Hw.
  - apply andb_prop in Hw. destruct Hw as [_ Hw].
    apply String.eqb_eq in Hw.
    apply get_set_other. intros <-. apply Hne. now apply member_name_wallet.
  - destruct (member_truthy (get o (member_name (fst e)))); [reflexivity |].
    now apply get_set_other.
Qed.

Lemma install_keeps_truthy (ipc : bool) (o : list (string * Member))
  (e : string * list (string * string)) (k : string) :
  member_truthy (get o k) = true -> ipc = true \/ k <> "wallet" ->
  get (install ipc o e) k = get o k.
Proof.
  intros Ht Hk.
  destruct (String.eqb_spec (member_name (fst e)) k) as [E|Hne];
    [| now apply install_other].
  unfold install.
  destruct (negb ipc && (fst e =? "wallet")) eqn:Hw.
  - apply andb_prop in Hw. destruct Hw as [Hi Hw].
    apply String.eqb_eq in Hw. exfalso.
    destruct Hk as [-> | Hk]; [discriminate Hi |].
    apply Hk. rewrite <- E. now apply member_name_wallet.
  - rewrite E, Ht. reflexivity.
Qed.

Lemma fold_install_other (ipc : bool) (table : MethodTable) (k : string) :
  forall o, ~ In k (map (fun e => member_name (fst e)) table) ->
            get (fold_left (install ipc) table o) k = get o k.
Proof.
  induction table as [|e rest IH]; intros o Hn; simpl; [reflexivity |].
  simpl in Hn. rewrite IH by tauto. apply install_other. tauto.
Qed.

Lemma fold_install_keeps_truthy (ipc : bool) (table : MethodTable) (k : string) :
  ipc = true \/ k <> "wallet" ->
  forall o, member_truthy (get o k) = true ->
            get (fold_left (install ipc) table o) k = get o k.
Proof.
  intros Hk. induction table as [|e rest IH]; intros o Ht; simpl; [reflexivity |].
  rewrite IH.
  - now apply install_keeps_truthy.
  - now rewrite install_keeps_truthy.
Qed.

(** *** The namespace object *)

Lemma namespace_fold_other (methods : list (string * string)) (k : string) :
  forall acc, ~ In k (map fst methods) ->
    get (fold_left (fun ns entry => set ns (fst entry) (snd entry)) methods acc) k
      = get acc k.
Proof.
  induction methods as [|[k' v'] rest IH]; intros acc Hn; simpl; [reflexivity |].
  simpl in Hn. rewrite IH by tauto. apply get_set_other. tauto.
Qed.

Lemma namespace_object_get (methods : list (string * string)) (k v : string) :
  NoDup (map fst methods) -> In (k, v) methods ->
  get (namespace_object methods) k = Some v.
Proof.
  unfold namespace_object. generalize (@nil (string * string)) as acc.
  induction methods as [|[k' v'] rest IH]; intros acc Hnd Hin; [contradiction |].
  simpl in *. inversion Hnd as [|? ? Hnotin Hnd']; subst.
  destruct Hin as [Heq | Hin].
  - injection Heq as -> ->. rewrite namespace_fold_other by exact Hnotin.
    apply get_set_same.
  - now apply IH.
Qed.

(** *** _setMethodsName *)

Lemma wallet_stays_null (table : MethodTable) :
  forall o, get o "wallet" = Some MNull ->
            get (fold_left (install false) table o) "wallet" = Some MNull.
Proof.
  induction table as [|e rest IH]; intros o H; simpl; [exact H |].
  apply IH.
  destruct (String.eqb_spec (fst e) "wallet") as [E|Hne].
  - unfold install. simpl. rewrite E. simpl. apply get_set_same.
  - rewrite install_other; [exact H |].
    intros Hm. apply Hne. now apply member_name_wallet.
Qed.

Lemma wallet_null_fold (table : MethodTable) :
  In "wallet" (map fst table) ->
  forall o, get (fold_left (install false) table o) "wallet" = Some MNull.
Proof.
  induction table as [|e rest IH]; intros Hin o; [contradiction |].
  simpl in Hin. simpl.
  destruct (String.eqb_spec (fst e) "wallet") as [E|Hne].
  - apply wallet_stays_null. unfold install. simpl. rewrite E. simpl.
    apply get_set_same.
  - apply IH. destruct Hin as [Hin | Hin]; [contradiction | exact Hin].
Qed.

(** X12: setProvider stores the provider and never runs _setMethodsName:
    its guard compares the function [providerType.toLowerCase] with the
    string 'ipc', which are never equal, so the members stay as they
    were.  In particular a client built for a provider that is not ipc
    still has [wallet] null after it is given an ipc provider. *)
Theorem setProvider_never_installs (table : MethodTable) :
  (forall c new_type,
     setProvider table c new_type
       = {| provider_type := new_type; members := members c |}) /\
  (forall inherited old_type new_type,
     toLowerCase (or_else old_type "http") <> "ipc" ->
     In "wallet" (map fst table) ->
     get (members (setProvider table (constructor table inherited old_type) new_type))
       "wallet" = Some MNull).
Proof.
  split.
  - intros c new_type. reflexivity.
  - intros inherited old_type new_type Hold Hin.
    unfold setProvider. simpl. unfold is_ipc. simpl.
    destruct (String.eqb_spec (toLowerCase (or_else old_type "http")) "ipc");
      [contradiction |].
    now apply wallet_null_fold.
Qed.

Lemma setProvider_never_installs_witness :
  get (members (setProvider demoTable
                  (constructor demoTable baseMembers (Some "http")) (Some "ipc")))
    "wallet" = Some MNull.
Proof.
  apply (proj2 (setProvider_never_installs demoTable) baseMembers (Some "http")
           (Some "ipc")).
  - discriminate.
  - simpl. now left.
Defined.

(** X13: for a provider that is not ipc, a table with a wallet namespace
    leaves [client.wallet] null, whatever the member was before and
    whatever the other namespaces are. *)
Theorem wallet_null_unless_ipc (table : MethodTable) (c : ClientState) :
  is_ipc c = false ->
  In "wallet" (map fst table) ->
  get (members (_setMethodsName table c)) "wallet" = Some MNull.
Proof.
  intros Hi Hin. unfold _setMethodsName. simpl. rewrite Hi.
  now apply wallet_null_fold.
Qed.

Lemma wallet_null_unless_ipc_witness :
  get (members (constructor demoTable baseMembers (Some "ws"))) "wallet" = Some MNull.
Proof.
  apply (@wallet_null_unless_ipc demoTable
           {| provider_type := Some "ws";
              members := set baseMembers "buildinTxBlock" MOther |}).
  - reflexivity.
  - simpl. now left.
Defined.

(** X14: _setMethodsName never replaces a member that is already there
    (truthy), be it a namespace or a method of the class, except that it
    nulls [wallet] for a provider that is not ipc. *)
Theorem existing_members_kept (table : MethodTable) (c : ClientState) (k : string) :
  member_truthy (get (members c) k) = true ->
  is_ipc c = true \/ k <> "wallet" ->
  get (members (_setMethodsName table c)) k = get (members c) k.
Proof.
  intros Ht Hk. unfold _setMethodsName. simpl.
  now apply fold_install_keeps_truthy.
Qed.

Lemma existing_members_kept_witness :
  get (members (constructor demoTable
                  [("request", MOther); ("tx", MOther)] (Some "http"))) "tx"
    = Some MOther.
Proof.
  apply (@existing_members_kept demoTable
           {| provider_type := Some "http";
              members := set [("request", MOther); ("tx", MOther)]
                           "buildinTxBlock" MOther |} "tx").
  - reflexivity.
  - right. discriminate.
Defined.

(** X15: after _setMethodsName every namespace of the table is a member
    of the client (under the name subscribeFunc for subscribe), wallet
    excepted when the provider is not ipc. *)
Theorem namespaces_present (table : MethodTable) (c : ClientState)
  (ns : string) (methods : list (string * string)) :
  In (ns, methods) table ->
  is_ipc c = true \/ ns <> "wallet" ->
  member_truthy (get (members (_setMethodsName table c)) (member_name ns)) = true.
Proof.
  intros Hin Hk. unfold _setMethodsName. simpl.
  assert (Hk' : is_ipc c = true \/ member_name ns <> "wallet").
  { destruct Hk as [Hi | Hne]; [now left | right].
    intros H. apply Hne. now apply member_name_wallet. }
  generalize (members c) as o.
  induction table as [|e rest IH]; intros o; [contradiction |].
  simpl. destruct Hin as [-> | Hin]; [| now apply IH].
  assert (Ht : member_truthy (get (install (is_ipc c) o (ns, methods)) (member_name ns)) = true).
  { unfold install. simpl fst. simpl snd.
    assert (Hw : negb (is_ipc c) && (ns =? "wallet") = false).
    { destruct Hk as [-> | Hne]; [reflexivity |].
      destruct (String.eqb_spec ns "wallet"); [contradiction |].
      now rewrite andb_false_r. }
    rewrite Hw.
    destruct (member_truthy (get o (member_name ns))) eqn:E; [exact E |].
    now rewrite get_set_same. }
  rewrite fold_install_keeps_truthy; auto.
Qed.

Lemma namespaces_present_witness :
  member_truthy
    (get (members (constructor demoTable baseMembers (Some "http"))) "subscribeFunc")
    = true.
Proof.
  apply (@namespaces_present demoTable
           {| provider_type := Some "http";
              members := set baseMembers "buildinTxBlock" MOther |}
           "subscribe" [("newAccountBlocks", "subscribe_newAccountBlocks")]).
  - simpl. tauto.
  - right. discriminate.
Defined.

(** X16: a namespace that _setMethodsName creates holds every method of
    its table entry, and calling [client[namespace][method]] requests the
    RPC name the table gives for it.  (Member names and method names are
    assumed distinct, as the keys of an object are.) *)
Theorem installed_method_forwards (table : MethodTable) (c : ClientState)
  (ns : string) (methods : list (string * string)) (method name : string) :
  NoDup (map (fun e => member_name (fst e)) table) ->
  NoDup (map fst methods) ->
  In (ns, methods) table ->
  In (method, name) methods ->
  member_truthy (get (members c) (member_name ns)) = false ->
  is_ipc c = true \/ ns <> "wallet" ->
  call (_setMethodsName table c) (member_name ns) method = Some name.
Proof.
  intros Hnd Hndm Hin Hm Hf Hk.
  assert (Hw : negb (is_ipc c) && (ns =? "wallet") = false).
  { destruct Hk as [-> | Hne]; [reflexivity |].
    destruct (String.eqb_spec ns "wallet"); [contradiction |].
    now rewrite andb_false_r. }
  assert (Hget : get (members (_setMethodsName table c)) (member_name ns)
                 = Some (MNamespace (namespace_object methods))).
  { unfold _setMethodsName. simpl.
    destruct (in_split _ _ Hin) as (l1 & l2 & ->).
    rewrite map_app in Hnd. simpl in Hnd.
    apply NoDup_remove_2 in Hnd.
    rewrite fold_left_app. simpl.
    rewrite fold_install_other
      by (intros H; apply Hnd; apply in_or_app; now right).
    unfold install at 1. simpl fst. simpl snd. rewrite Hw.
    rewrite fold_install_other
      by (intros H; apply Hnd; apply in_or_app; now left).
    rewrite Hf. apply get_set_same. }
  unfold call. rewrite Hget. now apply namespace_object_get.
Qed.

Lemma installed_method_forwards_witness :
  call (constructor demoTable baseMembers (Some "ws")) "ledger" "getBlocksByHash"
    = Some "ledger_getBlocksByHash".
Proof.
  apply (@installed_method_forwards demoTable
           {| provider_type := Some "ws";
              members := set baseMembers "buildinTxBlock" MOther |}
           "ledger"
           [("getLatestBlock", "ledger_getLatestBlock");
            ("getBlocksByHash", "ledger_getBlocksByHash")]
           "getBlocksByHash" "ledger_getBlocksByHash").
  - simpl. repeat constructor; simpl; intuition discriminate.
  - simpl. repeat constructor; simpl; intuition discriminate.
  - simpl. tauto.
  - simpl. tauto.
  - reflexivity.
  - right. discriminate.
Defined.

(** *** Running _setMethodsName twice *)

Lemma install_settles (ipc : bool) (o : list (string * Member))
  (e : string * list (string * string)) :
  settled ipc (install ipc o e) e.
Proof.
  unfold settled, install.
  destruct (negb ipc && (fst e =? "wallet")) eqn:Hw.
  - apply get_set_same.
  - destruct (member_truthy (get o (member_name (fst e)))) eqn:E; [exact E |].
    now rewrite get_set_same.
Qed.

Lemma install_preserves_settled (ipc : bool) (o : list (string * Member))
  (e e' : string * list (string * string)) :
  settled ipc o e -> settled ipc (install ipc o e') e.
Proof.
  unfold settled.
  destruct (negb ipc && (fst e =? "wallet")) eqn:Hw.
  - apply andb_prop in Hw. destruct Hw as [Hi Hw].
    destruct ipc; [discriminate Hi |]. intros H.
    apply (wallet_stays_null [e'] o H).
  - intros H. rewrite install_keeps_truthy; [exact H | exact H |].
    destruct ipc; [now left | right].
    simpl in Hw. intros Hm. apply (proj1 (member_name_wallet (fst e))) in Hm.
    rewrite Hm in Hw. discriminate Hw.
Qed.

Lemma fold_install_settles (ipc : bool) (table : MethodTable) :
  forall o e, In e table \/ settled ipc o e ->
              settled ipc (fold_left (install ipc) table o) e.
Proof.
  induction table as [|e' rest IH]; intros o e H; simpl.
  - destruct H as [[] | H]. exact H.
  - apply IH. destruct H as [[-> | Hin] | Hs].
    + right. apply install_settles.
    + now left.
    + right. now apply install_preserves_settled.
Qed.

Lemma install_settled_id (ipc : bool) (o : list (string * Member))
  (e : string * list (string * string)) :
  settled ipc o e -> install ipc o e = o.
Proof.
  unfold settled, install.
  destruct (negb ipc && (fst e =? "wallet")).
  - apply set_same_value.
  - now intros ->.
Qed.

(** X17: _setMethodsName is idempotent: running it again on its own
    result changes nothing, for every table and provider. *)
Theorem setMethodsName_idempotent (table : MethodTable) (c : ClientState) :
  _setMethodsName table (_setMethodsName table c) = _setMethodsName table c.
Proof.
  unfold _setMethodsName. simpl. f_equal.
  change (is_ipc {| provider_type := provider_type c;
                    members := fold_left (install (is_ipc c)) table (members c) |})
    with (is_ipc c).
  generalize (is_ipc c) as ipc. intros ipc.
  assert (Hall : forall e, In e table ->
            settled ipc (fold_left (install ipc) table (members c)) e).
  { intros e He. apply fold_install_settles. now left. }
  revert Hall. generalize (fold_left (install ipc) table (members c)) as o'.
  intros o' Hall.
  induction table as [|e rest IH]; simpl; [reflexivity |].
  rewrite install_settled_id by (apply Hall; now left).
  apply IH. intros e' He'. apply Hall. now right.
Qed.

End NamespaceFacts.

(* ================================================================== *)
(** ** Further properties of sendPowTx *)
(* ================================================================== *)

Module PipelineMore.
Import Account AccountExamples PipelineNotions.

(** *** Counting calls, stage by stage *)

Lemma calls_cons (p : Event -> bool) (e : Event) (tr : list Event) :
  calls p (e :: tr) = (if p e then 1 else 0) + calls p tr.
Proof. unfold calls. simpl. destruct (p e); reflexivity. Qed.

Lemma calls_after (p : Event -> bool) (evs : list Event) (r : Run) :
  calls p (fst (after evs r)) = calls p evs + calls p (fst r).
Proof. unfold after. simpl. apply PipelineFacts.calls_app. Qed.

Ltac abs_counts :=
  repeat match goal with
         | |- context [calls ?p (fst ?r)] =>
             let n := fresh "n" in set (n := calls p (fst r)) in *; clearbody n
         end.

Lemma count_beforeSendTx (d : Deps) (h : Hooks) (lc : string)
  (r : option CheckPowResult) (b : Block) :
  calls is_calc (fst (_beforeSendTx d h lc r b)) = 0 /\
  calls is_pow (fst (_beforeSendTx d h lc r b)) = 0 /\
  calls is_sign (fst (_beforeSendTx d h lc r b)) = 0 /\
  calls is_send (fst (_beforeSendTx d h lc r b)) <= 1.
Proof.
  unfold _beforeSendTx, sendTxFunc.
  destruct (beforeSendTx h) as [hook|]; [| cbv; repeat split; lia].
  destruct (hook b r) as [[[|]|]|]; cbv; repeat split; lia.
Qed.

Lemma count_signTx (d : Deps) (this : AccountClass) (h : Hooks) (lc : string)
  (r : option CheckPowResult) (b : Block) (isReject : bool) :
  calls is_calc (fst (signTx d this h lc r b isReject)) = 0 /\
  calls is_pow (fst (signTx d this h lc r b isReject)) = 0 /\
  calls is_sign (fst (signTx d this h lc r b isReject)) <= 1 /\
  calls is_send (fst (signTx d this h lc r b isReject)) <= 1.
Proof.
  unfold signTx. destruct isReject; [cbv; repeat split; lia |].
  rewrite !calls_after.
  destruct (signAccountBlock d this b) as [signed|t]; [| cbv; repeat split; lia].
  destruct (count_beforeSendTx d h "signDone" r signed) as (-> & -> & -> & H).
  abs_counts. cbn. repeat split; lia.
Qed.

Lemma count_beforeSignTx (d : Deps) (this : AccountClass) (h : Hooks) (lc : string)
  (r : option CheckPowResult) (b : Block) :
  calls is_calc (fst (_beforeSignTx d this h lc r b)) = 0 /\
  calls is_pow (fst (_beforeSignTx d this h lc r b)) = 0 /\
  calls is_sign (fst (_beforeSignTx d this h lc r b)) <= 1 /\
  calls is_send (fst (_beforeSignTx d this h lc r b)) <= 1.
Proof.
  unfold _beforeSignTx.
  destruct (beforeSignTx h) as [hook|]; [| apply count_signTx].
  rewrite !calls_after.
  destruct (hook b r) as [arg|]; [| cbv; repeat split; lia].
  destruct (count_signTx d this h lc r b (default_arg false arg)) as (-> & -> & H1 & H2).
  abs_counts. cbn. repeat split; lia.
Qed.

Lemma count_powFunc (d : Deps) (this : AccountClass) (h : Hooks) (lc : string)
  (r : CheckPowResult) (b : Block) (isReject : bool) :
  calls is_calc (fst (powFunc d this h lc r b isReject)) = 0 /\
  calls is_pow (fst (powFunc d this h lc r b isReject)) <= 1 /\
  calls is_sign (fst (powFunc d this h lc r b isReject))
    <= calls is_pow (fst (powFunc d this h lc r b isReject)) /\
  calls is_send (fst (powFunc d this h lc r b isReject)) <= 1.
Proof.
  unfold powFunc. destruct isReject; [cbv; repeat split; lia |].
  rewrite !calls_after.
  destruct (builtinTxBlock_pow d b (cpr_difficulty r)) as [m|t];
    [| cbv; repeat split; lia].
  destruct (count_beforeSignTx d this h "powDone" (Some r) m) as (-> & -> & H1 & H2).
  abs_counts. cbn. repeat split; lia.
Qed.

Lemma count_beforePow (d : Deps) (this : AccountClass) (h : Hooks) (lc : string)
  (r : CheckPowResult) (b : Block) :
  calls is_calc (fst (_beforePow d this h lc r b)) = 0 /\
  calls is_pow (fst (_beforePow d this h lc r b)) <= 1 /\
  calls is_sign (fst (_beforePow d this h lc r b))
    <= calls is_pow (fst (_beforePow d this h lc r b)) /\
  calls is_send (fst (_beforePow d this h lc r b)) <= 1.
Proof.
  unfold _beforePow.
  destruct (beforePow h) as [hook|]; [| apply count_powFunc].
  rewrite !calls_after.
  destruct (hook b (Some r)) as [arg|]; [| cbv; repeat split; lia].
  destruct (count_powFunc d this h lc r b (default_arg false arg)) as (-> & H0 & H1 & H2).
  abs_counts. cbn. repeat split; lia.
Qed.

Lemma count_checkFunc (d : Deps) (this : AccountClass) (h : Hooks)
  (b : Block) (upq : bool) :
  calls is_calc (fst (checkFunc d this h b upq)) = 1 /\
  calls is_pow (fst (checkFunc d this h b upq)) <= 1 /\
  calls is_sign (fst (checkFunc d this h b upq))
    <= calls is_pow (fst (checkFunc d this h b upq)) /\
  calls is_send (fst (checkFunc d this h b upq)) <= 1.
Proof.
  unfold checkFunc. rewrite !calls_after.
  destruct (calcPoWDifficulty d (calcArgs b upq)) as [r|t]; [| cbv; repeat split; lia].
  destruct (negb (truthy (cpr_difficulty r))).
  - destruct (count_beforeSendTx d h "checkPowDone" (Some r) b) as (-> & -> & -> & H).
    abs_counts. cbn. repeat split; lia.
  - destruct (count_beforePow d this h "checkPowDone" r b) as (-> & H0 & H1 & H2).
    abs_counts. cbn. repeat split; lia.
Qed.

(** X18: with hooks that invoke their continuation at most once, return
    what it returns, do not throw and leave the block as it is: in one run
    of sendPowTx the nonce solver, the signer and the submission are each
    called at most once, and the signer is called only after the nonce
    solver was: a block is never signed on the path without proof of
    work. *)
Theorem calls_at_most_once (d : Deps) (this : AccountClass) (h : Hooks)
  (methodName : string) (params : list string) :
  calls is_pow (fst (sendPowTx d this h methodName params)) <= 1 /\
  calls is_sign (fst (sendPowTx d this h methodName params))
    <= calls is_pow (fst (sendPowTx d this h methodName params)) /\
  calls is_send (fst (sendPowTx d this h methodName params)) <= 1.
Proof.
  unfold sendPowTx. rewrite !calls_after.
  destruct (getBlock d methodName params) as [b|t]; [| cbv; repeat split; lia].
  destruct (beforeCheckPow h) as [hook|].
  - rewrite !calls_after.
    destruct (hook b) as [arg|]; [| cbv; repeat split; lia].
    destruct (count_checkFunc d this h b (default_arg true arg)) as (_ & H0 & H1 & H2).
    abs_counts. cbn. repeat split; lia.
  - destruct (count_checkFunc d this h b true) as (_ & H0 & H1 & H2).
    abs_counts. cbn. repeat split; lia.
Qed.

(** *** Outcome and trace, stage by stage *)

Lemma sound_after (d : Deps) (this : AccountClass) (evs : list Event) (run : Run) :
  calls is_send evs = 0 -> calls is_kept evs = 0 ->
  sound d this run -> sound d this (after evs run).
Proof.
  intros Hs Hk [Hout Hkept]. unfold sound.
  rewrite PipelineFacts.snd_after, PipelineFacts.fst_after.
  rewrite !PipelineFacts.calls_app, Hs, Hk. simpl. split; [| exact Hkept].
  destruct (snd run) as [lc r b|t|].
  - destruct Hout as [(H1 & H2 & H3 & prefix & H4) | H]; [left | now right].
    repeat split; auto. exists (evs ++ prefix)%list.
    now rewrite H4, app_assoc.
  - destruct Hout as (prefix & e & H1 & H2).
    exists (evs ++ prefix)%list, e. split; [| exact H2].
    now rewrite H1, app_assoc.
  - destruct Hout as (H1 & prefix & stage & H2). split; [exact H1 |].
    exists (evs ++ prefix)%list, stage. now rewrite H2, app_assoc.
Qed.

Lemma sound_kept (d : Deps) (this : AccountClass) (stage : string) :
  sound d this (after [Ev_hook stage NoCall] ([], HookKept)).
Proof.
  unfold sound. simpl. split; [| reflexivity].
  split; [reflexivity |]. now exists [], stage.
Qed.

Lemma sound_failed (d : Deps) (this : AccountClass) (e : Event) (t : Thrown) :
  thrown_by d this e t -> sound d this (after [e] ([], Failed t)).
Proof.
  intros H. unfold sound. simpl. split.
  - now exists [], e.
  - destruct e as [| stage [|] | | | |]; simpl in *; try contradiction;
      intros F; now elim F.
Qed.

Lemma sound_rejected (d : Deps) (this : AccountClass) (lc : string)
  (r : option CheckPowResult) (b : Block) :
  lc <> "finish" -> sound d this ([], Result lc r b).
Proof.
  intros H. unfold sound. simpl. split; [now right | intros F; now elim F].
Qed.

Lemma sound_sendTxFunc (d : Deps) (this : AccountClass) (lc : string)
  (r : option CheckPowResult) (b : Block) (isReject : bool) :
  lc <> "finish" -> sound d this (sendTxFunc d lc r b isReject).
Proof.
  intros Hlc. unfold sendTxFunc. destruct isReject; [now apply sound_rejected |].
  destruct (sendAccountBlock d b) as [[]|t] eqn:E.
  - unfold sound. simpl. split; [| intros F; now elim F].
    left. repeat split; auto. now exists [].
  - apply (sound_failed d this (Ev_send b)). exact E.
Qed.

Lemma sound_beforeSendTx (d : Deps) (this : AccountClass) (h : Hooks) (lc : string)
  (r : option CheckPowResult) (b : Block) :
  lc <> "finish" -> sound d this (_beforeSendTx d h lc r b).
Proof.
  intros Hlc. unfold _beforeSendTx.
  destruct (beforeSendTx h) as [hook|]; [| now apply sound_sendTxFunc].
  destruct (hook b r) as [arg|]; [| apply sound_kept].
  apply sound_after; try reflexivity. now apply sound_sendTxFunc.
Qed.

Lemma sound_signTx (d : Deps) (this : AccountClass) (h : Hooks) (lc : string)
  (r : option CheckPowResult) (b : Block) (isReject : bool) :
  lc <> "finish" -> sound d this (signTx d this h lc r b isReject).
Proof.
  intros Hlc. unfold signTx. destruct isReject; [now apply sound_rejected |].
  destruct (signAccountBlock d this b) as [signed|t] eqn:E.
  - apply sound_after; try reflexivity. apply sound_beforeSendTx. discriminate.
  - apply (sound_failed d this (Ev_sign b)). exact E.
Qed.

Lemma sound_beforeSignTx (d : Deps) (this : AccountClass) (h : Hooks) (lc : string)
  (r : option CheckPowResult) (b : Block) :
  lc <> "finish" -> sound d this (_beforeSignTx d this h lc r b).
Proof.
  intros Hlc. unfold _beforeSignTx.
  destruct (beforeSignTx h) as [hook|]; [| now apply sound_signTx].
  destruct (hook b r) as [arg|]; [| apply sound_kept].
  apply sound_after; try reflexivity. now apply sound_signTx.
Qed.

Lemma sound_powFunc (d : Deps) (this : AccountClass) (h : Hooks) (lc : string)
  (r : CheckPowResult) (b : Block) (isReject : bool) :
  lc <> "finish" -> sound d this (powFunc d this h lc r b isReject).
Proof.
  intros Hlc. unfold powFunc. destruct isReject; [now apply sound_rejected |].
  destruct (builtinTxBlock_pow d b (cpr_difficulty r)) as [m|t] eqn:E.
  - apply sound_after; try reflexivity. apply sound_beforeSignTx. discriminate.
  - apply (sound_failed d this (Ev_pow b (cpr_difficulty r))). exact E.
Qed.

Lemma sound_beforePow (d : Deps) (this : AccountClass) (h : Hooks) (lc : string)
  (r : CheckPowResult) (b : Block) :
  lc <> "finish" -> sound d this (_beforePow d this h lc r b).
Proof.
  intros Hlc. unfold _beforePow.
  destruct (beforePow h) as [hook|]; [| now apply sound_powFunc].
  destruct (hook b (Some r)) as [arg|]; [| apply sound_kept].
  apply sound_after; try reflexivity. now apply sound_powFunc.
Qed.

Lemma sound_checkFunc (d : Deps) (this : AccountClass) (h : Hooks)
  (b : Block) (upq : bool) :
  sound d this (checkFunc d this h b upq).
Proof.
  unfold checkFunc.
  destruct (calcPoWDifficulty d (calcArgs b upq)) as [r|t] eqn:E.
  - apply sound_after; try reflexivity.
    destruct (negb (truthy (cpr_difficulty r))).
    + apply sound_beforeSendTx. discriminate.
    + apply sound_beforePow. discriminate.
  - apply (sound_failed d this (Ev_calcPoWDifficulty (calcArgs b upq))). exact E.
Qed.

Lemma sound_sendPowTx (d : Deps) (this : AccountClass) (h : Hooks)
  (methodName : string) (params : list string) :
  sound d this (sendPowTx d this h methodName params).
Proof.
  unfold sendPowTx.
  destruct (getBlock d methodName params) as [b|t] eqn:E.
  - apply sound_after; try reflexivity.
    destruct (beforeCheckPow h) as [hook|]; [| apply sound_checkFunc].
    destruct (hook b) as [arg|]; [| apply sound_kept].
    apply sound_after; try reflexivity. apply sound_checkFunc.
  - apply (sound_failed d this (Ev_getBlock methodName params)). exact E.
Qed.

Lemma calls_zero_not_in (p : Event -> bool) (tr : list Event) (e : Event) :
  calls p tr = 0 -> In e tr -> p e = false.
Proof.
  unfold calls. induction tr as [|e' tr IH]; [contradiction |].
  simpl. destruct (p e') eqn:E; [discriminate |].
  intros H [<- | Hin]; [exact E | now apply IH].
Qed.

Lemma calls_in_nonzero (p : Event -> bool) (tr : list Event) (e : Event) :
  In e tr -> p e = true -> calls p tr <> 0.
Proof.
  intros Hin Hp Hz. rewrite (calls_zero_not_in p tr e Hz Hin) in Hp. discriminate.
Qed.

(** X19: with hooks that invoke their continuation at most once, return
    what it returns, do not throw and leave the block as it is: when
    sendPowTx returns a result, its lifeCycle is 'finish' exactly when the
    block was submitted; a 'finish' result returns the very block whose
    submission the ledger accepted, and that submission is the last call
    of the run.  Every other result comes without any submission. *)
Theorem finish_means_submitted (d : Deps) (this : AccountClass) (h : Hooks)
  (methodName : string) (params : list string)
  (lc : string) (r : option CheckPowResult) (b : Block) :
  snd (sendPowTx d this h methodName params) = Result lc r b ->
  (lc = "finish" <-> calls is_send (fst (sendPowTx d this h methodName params)) = 1) /\
  (lc <> "finish" -> calls is_send (fst (sendPowTx d this h methodName params)) = 0) /\
  (lc = "finish" ->
     sendAccountBlock d b = Return tt /\
     exists prefix,
       fst (sendPowTx d this h methodName params) = (prefix ++ [Ev_send b])%list).
Proof.
  intros H. destruct (sound_sendPowTx d this h methodName params) as [Hout _].
  rewrite H in Hout.
  destruct Hout as [(H1 & H2 & H3 & H4) | (H1 & H2)].
  - repeat split; auto. intros F. contradiction.
  - repeat split; try tauto. intros F. rewrite H2 in F. discriminate.
Qed.

Lemma finish_means_submitted_witness :
  calls is_send
    (fst (sendPowTx (node (Some "67108864")) demoAccount noHooks "asyncSendTx" [])) = 1.
Proof.
  apply (proj1 (finish_means_submitted (node (Some "67108864")) demoAccount noHooks
                  "asyncSendTx" [] eq_refl)).
  reflexivity.
Defined.

(** X20: a hook that returns without invoking its continuation ends the
    run there: nothing is submitted, and no result or failure is
    reported for that run. *)
Theorem kept_continuation_stalls (d : Deps) (this : AccountClass) (h : Hooks)
  (methodName : string) (params : list string) (stage : string) :
  In (Ev_hook stage NoCall) (fst (sendPowTx d this h methodName params)) ->
  snd (sendPowTx d this h methodName params) = HookKept /\
  calls is_send (fst (sendPowTx d this h methodName params)) = 0 /\
  exists prefix stage',
    fst (sendPowTx d this h methodName params)
      = (prefix ++ [Ev_hook stage' NoCall])%list.
Proof.
  intros Hin. destruct (sound_sendPowTx d this h methodName params) as [Hout Hkept].
  assert (E : snd (sendPowTx d this h methodName params) = HookKept).
  { apply Hkept. now apply (calls_in_nonzero is_kept _ _ Hin). }
  rewrite E in Hout. destruct Hout as [H1 H2]. auto.
Qed.

Lemma kept_continuation_stalls_witness :
  snd (sendPowTx (node (Some "67108864")) demoAccount
         {| beforeCheckPow := None; beforePow := Some (fun _ _ => NoCall);
            beforeSignTx := None; beforeSendTx := None |} "asyncSendTx" [])
    = HookKept.
Proof.
  apply (@kept_continuation_stalls (node (Some "67108864")) demoAccount
           {| beforeCheckPow := None; beforePow := Some (fun _ _ => NoCall);
              beforeSignTx := None; beforeSendTx := None |}
           "asyncSendTx" [] "beforePow").
  simpl. tauto.
Defined.

(** X21: with hooks that invoke their continuation at most once, return
    what it returns, do not throw and leave the block as it is: when
    sendPowTx fails, the failure is the error thrown by the last call it
    made (getBlock, the difficulty assessment, the nonce solver, the
    signer or the submission), passed on unchanged; nothing is called
    after a failed call. *)
Theorem failure_is_last_call (d : Deps) (this : AccountClass) (h : Hooks)
  (methodName : string) (params : list string) (t : Thrown) :
  snd (sendPowTx d this h methodName params) = Failed t ->
  exists prefix e,
    fst (sendPowTx d this h methodName params) = (prefix ++ [e])%list /\
    thrown_by d this e t.
Proof.
  intros H. destruct (sound_sendPowTx d this h methodName params) as [Hout _].
  now rewrite H in Hout.
Qed.

Lemma failure_is_last_call_witness :
  exists prefix e,
    fst (sendPowTx failingOracle demoAccount noHooks "asyncSendTx" [])
      = (prefix ++ [e])%list /\
    thrown_by failingOracle demoAccount e (ThrowError "timeout").
Proof.
  apply (@failure_is_last_call failingOracle demoAccount noHooks "asyncSendTx" []
           (ThrowError "timeout")).
  reflexivity.
Defined.

(** *** The path with proof of work *)

(** X22: with no hooks, a truthy difficulty and every call succeeding,
    sendPowTx calls, in this order, getBlock, the difficulty assessment,
    the nonce solver on the block of getBlock, the signer on the mined
    block and the submission of the signed block.  The signer is given the
    mined block with its accountAddress replaced by the account's own
    address, whatever address the block carried. *)
Theorem pow_path_composes (d : Deps) (this : AccountClass)
  (methodName : string) (params : list string)
  (b m s : Block) (r : CheckPowResult) :
  getBlock d methodName params = Return b ->
  calcPoWDifficulty d (calcArgs b true) = Return r ->
  truthy (cpr_difficulty r) = true ->
  builtinTxBlock_pow d b (cpr_difficulty r) = Return m ->
  import_signAccountBlock d (with_address this m) (privateKey this) = Return s ->
  sendPowTx d this noHooks methodName params
    = ([Ev_getBlock methodName params;
        Ev_calcPoWDifficulty (calcArgs b true);
        Ev_pow b (cpr_difficulty r);
        Ev_sign m;
        Ev_send s],
       match sendAccountBlock d s with
       | Throw t => Failed t
       | Return _ => Result "finish" (Some r) s
       end).
Proof.
  intros Hg Hc Ht Hp Hs.
  unfold sendPowTx. rewrite Hg. simpl beforeCheckPow. cbv iota.
  unfold checkFunc. rewrite Hc, Ht. simpl negb. cbv iota.
  unfold _beforePow. simpl beforePow. cbv iota.
  unfold powFunc. rewrite Hp.
  unfold _beforeSignTx. simpl beforeSignTx. cbv iota.
  unfold signTx, signAccountBlock. fold (with_address this m). rewrite Hs.
  reflexivity.
Qed.

Lemma pow_path_composes_witness :
  sendPowTx (node (Some "67108864")) demoAccount noHooks "asyncSendTx" []
    = ([Ev_getBlock "asyncSendTx" [];
        Ev_calcPoWDifficulty (calcArgs demoBlock true);
        Ev_pow demoBlock (Some "67108864");
        Ev_sign (mined demoBlock (Some "67108864"));
        Ev_send (signedWith (with_address demoAccount
                               (mined demoBlock (Some "67108864"))) "ab")],
       Result "finish"
         (Some {| cpr_requiredQuota := Some "21000";
                  cpr_difficulty := Some "67108864";
                  cpr_qc := Some "1"; cpr_isCongestion := false |})
         (signedWith (with_address demoAccount
                        (mined demoBlock (Some "67108864"))) "ab")).
Proof.
  apply (@pow_path_composes (node (Some "67108864")) demoAccount "asyncSendTx" []
           demoBlock (mined demoBlock (Some "67108864"))
           (signedWith (with_address demoAccount
                          (mined demoBlock (Some "67108864"))) "ab")
           {| cpr_requiredQuota := Some "21000";
              cpr_difficulty := Some "67108864";
              cpr_qc := Some "1"; cpr_isCongestion := false |});
    reflexivity.
Defined.

(** *** What the pipeline reads of the account *)

Lemma signAccountBlock_reads (d : Deps) (this this' : AccountClass) (b : Block) :
  address this = address this' -> privateKey this = privateKey this' ->
  signAccountBlock d this b = signAccountBlock d this' b.
Proof. intros Ha Hk. unfold signAccountBlock. now rewrite Ha, Hk. Qed.

Lemma signTx_reads (d : Deps) (this this' : AccountClass) (h : Hooks) (lc : string)
  (r : option CheckPowResult) (b : Block) (isReject : bool) :
  address this = address this' -> privateKey this = privateKey this' ->
  signTx d this h lc r b isReject = signTx d this' h lc r b isReject.
Proof.
  intros Ha Hk. unfold signTx.
  now rewrite (signAccountBlock_reads d this this' b Ha Hk).
Qed.

Lemma beforeSignTx_reads (d : Deps) (this this' : AccountClass) (h : Hooks)
  (lc : string) (r : option CheckPowResult) (b : Block) :
  address this = address this' -> privateKey this = privateKey this' ->
  _beforeSignTx d this h lc r b = _beforeSignTx d this' h lc r b.
Proof.
  intros Ha Hk. unfold _beforeSignTx.
  destruct (beforeSignTx h) as [hook|]; [| now apply signTx_reads].
  destruct (hook b r) as [arg|]; [| reflexivity].
  now rewrite (signTx_reads d this this' h lc r b (default_arg false arg) Ha Hk).
Qed.

Lemma powFunc_reads (d : Deps) (this this' : AccountClass) (h : Hooks) (lc : string)
  (r : CheckPowResult) (b : Block) (isReject : bool) :
  address this = address this' -> privateKey this = privateKey this' ->
  powFunc d this h lc r b isReject = powFunc d this' h lc r b isReject.
Proof.
  intros Ha Hk. unfold powFunc. destruct isReject; [reflexivity |].
  destruct (builtinTxBlock_pow d b (cpr_difficulty r)) as [m|t]; [| reflexivity].
  now rewrite (beforeSignTx_reads d this this' h "powDone" (Some r) m Ha Hk).
Qed.

Lemma checkFunc_reads (d : Deps) (this this' : AccountClass) (h : Hooks)
  (b : Block) (upq : bool) :
  address this = address this' -> privateKey this = privateKey this' ->
  checkFunc d this h b upq = checkFunc d this' h b upq.
Proof.
  intros Ha Hk. unfold checkFunc.
  destruct (calcPoWDifficulty d (calcArgs b upq)) as [r|t]; [| reflexivity].
  destruct (negb (truthy (cpr_difficulty r))); [reflexivity |].
  unfold _beforePow. destruct (beforePow h) as [hook|].
  - destruct (hook b (Some r)) as [arg|]; [| reflexivity].
    now rewrite (powFunc_reads d this this' h "checkPowDone" r b
                   (default_arg false arg) Ha Hk).
  - now rewrite (powFunc_reads d this this' h "checkPowDone" r b false Ha Hk).
Qed.

(** X23: sendPowTx reads nothing of the account but its address and its
    private key: the account's autoPow and usePledgeQuota settings and
    the state of its loops have no influence on the calls made or on the
    outcome. *)
Theorem sendPowTx_ignores_settings (d : Deps) (this this' : AccountClass) (h : Hooks)
  (methodName : string) (params : list string) :
  address this = address this' ->
  privateKey this = privateKey this' ->
  sendPowTx d this h methodName params = sendPowTx d this' h methodName params.
Proof.
  intros Ha Hk. unfold sendPowTx.
  destruct (getBlock d methodName params) as [b|t]; [| reflexivity].
  destruct (beforeCheckPow h) as [hook|].
  - destruct (hook b) as [arg|]; [| reflexivity].
    now rewrite (checkFunc_reads d this this' h b (default_arg true arg) Ha Hk).
  - now rewrite (checkFunc_reads d this this' h b true Ha Hk).
Qed.

Lemma sendPowTx_ignores_settings_witness :
  sendPowTx (node (Some "67108864")) demoAccount noHooks "asyncSendTx" []
    = sendPowTx (node (Some "67108864"))
        {| address := "vite_ab"; privateKey := "ab"; autoPow := true;
           usePledgeQuota := false; _lock := false; _autoReceive := true |}
        noHooks "asyncSendTx" [].
Proof.
  apply sendPowTx_ignores_settings; reflexivity.
Defined.

(** *** The difficulty assessment *)

Lemma checkFunc_trace (d : Deps) (this : AccountClass) (h : Hooks)
  (b : Block) (upq : bool) :
  exists rest,
    fst (checkFunc d this h b upq) = Ev_calcPoWDifficulty (calcArgs b upq) :: rest /\
    calls is_calc rest = 0.
Proof.
  unfold checkFunc, after. simpl.
  destruct (calcPoWDifficulty d (calcArgs b upq)) as [r|t].
  - destruct (negb (truthy (cpr_difficulty r))).
    + eexists. split; [reflexivity |]. apply count_beforeSendTx.
    + eexists. split; [reflexivity |]. apply count_beforePow.
  - exists []. split; reflexivity.
Qed.

(** X24: with hooks that invoke their continuation at most once, return
    what it returns, do not throw and leave the block as it is: the
    difficulty is assessed at most once per run, always for the block
    exactly as getBlock returned it, and with usePledgeQuota true unless
    the beforeCheckPow hook passed another value to its continuation. *)
Theorem assessment_for_fetched_block (d : Deps) (this : AccountClass) (h : Hooks)
  (methodName : string) (params : list string) :
  calls is_calc (fst (sendPowTx d this h methodName params)) <= 1 /\
  forall args,
    In (Ev_calcPoWDifficulty args) (fst (sendPowTx d this h methodName params)) ->
    exists b upq,
      getBlock d methodName params = Return b /\
      checkPow_arg h b = Some upq /\
      args = calcArgs b upq.
Proof.
  unfold sendPowTx, checkPow_arg.
  destruct (getBlock d methodName params) as [b|t]; [| split; [cbv; lia |]].
  - destruct (beforeCheckPow h) as [hook|].
    + destruct (hook b) as [arg|] eqn:Hh.
      * destruct (checkFunc_trace d this h b (default_arg true arg)) as (rest & E & Hz).
        rewrite !PipelineFacts.fst_after, E. split.
        -- simpl. rewrite !calls_cons, Hz. simpl. lia.
        -- intros args [F | [F | [F | Hin]]]; try discriminate F.
           ++ injection F as <-. exists b, (default_arg true arg).
              rewrite Hh. repeat split.
           ++ apply (calls_zero_not_in is_calc rest _ Hz) in Hin. discriminate Hin.
      * split; [cbv; lia |]. intros args [F | [F | []]]; discriminate F.
    + destruct (checkFunc_trace d this h b true) as (rest & E & Hz).
      rewrite !PipelineFacts.fst_after, E. split.
      * simpl. rewrite !calls_cons, Hz. simpl. lia.
      * intros args [F | [F | Hin]]; try discriminate F.
        -- injection F as <-. now exists b, true.
        -- apply (calls_zero_not_in is_calc rest _ Hz) in Hin. discriminate Hin.
  - intros args [F | []]. discriminate F.
Qed.

End PipelineMore.

(* ================================================================== *)
(** ** Further properties of the polling loops *)
(* ================================================================== *)

Module LoopMore.
Import Account AccountExamples LoopNotions.

Lemma frozen_step (s0 s : Sched) (e : LoopEvent) :
  frozen_since s0 s -> is_activate e = false -> frozen_since s0 (step s e).
Proof.
  unfold frozen_since, balanceLoops. intros H He H0.
  destruct (H H0) as (Hl & Hr & Hb). clear H.
  destruct s as [[ad pk ap uq lk ar] bq bt rq rt]. simpl in *. subst lk.
  destruct e as [| | | |[[|]|]| | |]; try discriminate He;
    destruct ar, bq, bt, rq, rt; cbn in *; repeat split; lia.
Qed.

Lemma stopped_step (s0 s : Sched) (e : LoopEvent) :
  stopped_since s0 s -> starts_receive e = false -> stopped_since s0 (step s e).
Proof.
  unfold stopped_since, receiveLoops. intros H He H0.
  destruct (H H0) as (Hl & Hr & Hb). clear H.
  destruct s as [[ad pk ap uq lk ar] bq bt rq rt]. simpl in *. subst ar.
  destruct e as [| | | |[[|]|]| | |]; try discriminate He;
    destruct lk, bq, bt, rq, rt; cbn in *; repeat split; lia.
Qed.

(** X25: once frozen, an account issues no further balance request and
    starts no balance loop until activate is called again, whatever else
    happens: requests in flight settle and their timers fire, but no
    callback fetches the balance.  Likewise, while [_autoReceive] is false
    and nothing sets it, no further page of pending blocks is fetched. *)
Theorem stopped_loops_stay_quiet (s : Sched) (es : list LoopEvent) :
  (_lock (this s) = true ->
   forallb (fun e => negb (is_activate e)) es = true ->
   _lock (this (run es s)) = true /\
   balanceRequests (run es s) <= balanceRequests s /\
   balanceLoops (run es s) <= balanceLoops s) /\
  (_autoReceive (this s) = false ->
   forallb (fun e => negb (starts_receive e)) es = true ->
   _autoReceive (this (run es s)) = false /\
   receiveRequests (run es s) <= receiveRequests s /\
   receiveLoops (run es s) <= receiveLoops s).
Proof.
  split.
  - intros Hl Hes. revert Hl.
    change (frozen_since s (run es s)). unfold run.
    assert (H : forall es s1, frozen_since s s1 ->
                forallb (fun e => negb (is_activate e)) es = true ->
                frozen_since s (fold_left step es s1)).
    { clear es Hes. induction es as [|e es IH]; intros s1 Hs Hall; simpl in *;
        [exact Hs |].
      apply andb_prop in Hall. destruct Hall as [He Hes].
      apply IH; [| exact Hes]. apply frozen_step; [exact Hs |].
      now destruct (is_activate e). }
    apply H; [| exact Hes]. unfold frozen_since. intros. repeat split; auto.
  - intros Hl Hes. revert Hl.
    change (stopped_since s (run es s)). unfold run.
    assert (H : forall es s1, stopped_since s s1 ->
                forallb (fun e => negb (starts_receive e)) es = true ->
                stopped_since s (fold_left step es s1)).
    { clear es Hes. induction es as [|e es IH]; intros s1 Hs Hall; simpl in *;
        [exact Hs |].
      apply andb_prop in Hall. destruct Hall as [He Hes].
      apply IH; [| exact Hes]. apply stopped_step; [exact Hs |].
      now destruct (starts_receive e). }
    apply H; [| exact Hes]. unfold stopped_since. intros. repeat split; auto.
Qed.

Lemma stopped_loops_stay_quiet_witness :
  balanceRequests
    (run [BalanceSettled (Some true); BalanceTimeout; ReceiveSettled; AutoReceiveTx]
       (run [Activate; Freeze] (fresh demoAccount))) <= 1 /\
  balanceLoops
    (run [BalanceSettled (Some true); BalanceTimeout; ReceiveSettled; AutoReceiveTx]
       (run [Activate; Freeze] (fresh demoAccount))) <= 1.
Proof.
  destruct (proj1 (stopped_loops_stay_quiet
                     (run [Activate; Freeze] (fresh demoAccount))
                     [BalanceSettled (Some true); BalanceTimeout; ReceiveSettled;
                      AutoReceiveTx]) eq_refl eq_refl) as (_ & Hr & Hb).
  split; [exact Hr | exact Hb].
Defined.

(** X26: a loop ends only when its timer fires while its flag is off: a
    balance loop only at a timeout with the account frozen, a receive loop
    only at a timeout with [_autoReceive] false.  A request that fails
    never ends a loop. *)
Theorem loop_ends_only_at_timer (s : Sched) (e : LoopEvent) :
  (balanceLoops (step s e) < balanceLoops s ->
     e = BalanceTimeout /\ _lock (this s) = true) /\
  (receiveLoops (step s e) < receiveLoops s ->
     e = ReceiveTimeout /\ _autoReceive (this s) = false).
Proof.
  destruct s as [[ad pk ap uq lk ar] bq bt rq rt].
  unfold balanceLoops, receiveLoops.
  destruct e as [| | | |[[|]|]| | |];
    destruct lk, ar, bq, bt, rq, rt; cbn; split; intros H;
    try (exfalso; lia); split; reflexivity.
Qed.

(** X27: what a settled balance request does to the receive loop: with
    pending inbound entries in the answer auto receive is on afterwards,
    and a receive loop was started unless it was on already; with none it
    is off; after a failed request it is as it was.  In every case the
    balance loop goes on to its timer and the account stays active or
    frozen as it was. *)
Theorem balance_tick_drives_receive (s : Sched) (r : option bool) :
  0 < balanceRequests s ->
  balanceLoops (balance_settled r s) = balanceLoops s /\
  0 < balanceTimers (balance_settled r s) /\
  _lock (this (balance_settled r s)) = _lock (this s) /\
  match r with
  | Some true => _autoReceive (this (balance_settled r s)) = true /\
                 receiveLoops (balance_settled r s)
                   = receiveLoops s + (if _autoReceive (this s) then 0 else 1)
  | Some false => _autoReceive (this (balance_settled r s)) = false /\
                  receiveLoops (balance_settled r s) = receiveLoops s
  | None => _autoReceive (this (balance_settled r s)) = _autoReceive (this s) /\
            receiveLoops (balance_settled r s) = receiveLoops s
  end.
Proof.
  destruct s as [[ad pk ap uq lk ar] bq bt rq rt].
  unfold balanceLoops, receiveLoops. simpl. intros H.
  destruct bq as [|bq]; [lia |].
  destruct r as [[|]|]; destruct ar; cbn; repeat split; lia.
Qed.

Lemma balance_tick_drives_receive_witness :
  _autoReceive
    (this (balance_settled (Some true) (run [Activate] (fresh demoAccount)))) = true.
Proof.
  destruct (@balance_tick_drives_receive (run [Activate] (fresh demoAccount))
              (Some true)) as (_ & _ & _ & H & _).
  - cbn. lia.
  - exact H.
Defined.

(** *** The queue under any network behaviour *)

Lemma receive_head_or_same (a : AccountClass) (ap upq : option bool)
  (net : Net) (l : Ledger) :
  (_receive a ap upq net l = (l, [Ev_getOnroadBlocks 0 1])) \/
  (exists b rest, l = b :: rest /\
     (_receive a ap upq net l
        = (l, [Ev_getOnroadBlocks 0 1; Ev_submit (_sendRawTx a (ob_hash b) ap upq)]) \/
      _receive a ap upq net l
        = (rest, [Ev_getOnroadBlocks 0 1; Ev_submit (_sendRawTx a (ob_hash b) ap upq)]))).
Proof.
  unfold _receive.
  destruct (fetch_ok net); [| now left].
  destruct l as [|b rest]; [now left |].
  simpl. destruct (build_ok net); [| now left].
  right. exists b, rest. split; [reflexivity |].
  simpl. rewrite String.eqb_refl.
  destruct (accepted net); [now right | now left].
Qed.

(** X28: whatever the network does, the receive loop consumes the queue
    oldest first: after any number of ticks the queue is what remains of
    the original queue after dropping at most one block per tick from its
    front.  Every tick starts with the page query (index 0, size 1) and
    makes at most one submission, which answers a block of the original
    queue. *)
Theorem ticks_consume_front (a : AccountClass) (ap upq : option bool)
  (nets : list Net) (l : Ledger) :
  (exists k, k <= List.length nets /\
             fst (ticks a ap upq nets l) = skipn k l) /\
  List.length (snd (ticks a ap upq nets l)) = List.length nets /\
  (forall tick, In tick (snd (ticks a ap upq nets l)) ->
     exists more, tick = Ev_getOnroadBlocks 0 1 :: more /\
       List.length (submissions more) <= 1 /\
       forall s, In s (submissions more) ->
         exists b, In b l /\ s = _sendRawTx a (ob_hash b) ap upq).
Proof.
  revert l. induction nets as [|net nets IH]; intros l.
  - simpl. split; [exists 0; split; [lia | reflexivity] |].
    split; [reflexivity | intros tick []].
  - cbn [ticks].
    destruct (_receive a ap upq net l) as [l1 evs] eqn:E.
    specialize (IH l1).
    destruct (ticks a ap upq nets l1) as [l2 rest] eqn:E2.
    simpl in IH. destruct IH as ((k & Hk & Hl2) & Hlen & Hticks). simpl.
    assert (Hl1 : (l1 = l \/ exists b, l = b :: l1) /\
                  exists more, evs = Ev_getOnroadBlocks 0 1 :: more /\
                    List.length (submissions more) <= 1 /\
                    forall s, In s (submissions more) ->
                      exists b, In b l /\ s = _sendRawTx a (ob_hash b) ap upq).
    { destruct (receive_head_or_same a ap upq net l) as [H | (b & tl & -> & [H | H])];
        rewrite H in E; injection E as <- <-.
      - split; [now left |]. exists []. simpl. split; [reflexivity |].
        split; [lia | intros s []].
      - split; [now left |]. eexists. split; [reflexivity |]. simpl.
        split; [lia |]. intros s [<- | []]. exists b. split; [now left | reflexivity].
      - split; [right; now exists b |]. eexists. split; [reflexivity |]. simpl.
        split; [lia |]. intros s [<- | []]. exists b. split; [now left | reflexivity]. }
    destruct Hl1 as [Hfront Hevs].
    split; [| split].
    + destruct Hfront as [-> | (b & ->)].
      * exists k. split; [lia | exact Hl2].
      * exists (S k). split; [lia | exact Hl2].
    + now rewrite Hlen.
    + intros tick [<- | Hin]; [exact Hevs |].
      destruct (Hticks tick Hin) as (more & Hm & Hle & Hs).
      exists more. split; [exact Hm |]. split; [exact Hle |].
      intros s Hsin. destruct (Hs s Hsin) as (b & Hb & ->).
      exists b. split; [| reflexivity].
      destruct Hfront as [-> | (b0 & ->)]; [exact Hb | now right].
Qed.

End LoopMore.
